(** * PyPhi core: the [Network] model and the [SystemIrreducibilityAnalysis]
    result type.

    A shallow embedding of [pyphi/network.py] and [pyphi/models/big_phi.py].

    Conventions of the embedding:
    - A NumPy array is its shape, its element type with its elements in
      row-major (C) order, and its [writeable] flag.  An element is kept as
      the exact value of the machine number it is: an integer for [int64], a
      rational for [float64]; arithmetic on [float64] rounds to the nearest
      [float64].  NaN, the infinities and the negative zero are not values
      of the model.  The [phi] of an analysis is a rational.
    - A Python call that may raise returns a [result]: [Ok v] or [Err e].
    - Attribute assignment on an object is a function from the old record to
      the new one; a method that touches the purview cache returns the new
      record next to its value.
    - The helper modules [utils], [convert], [validate], [cache], [constants]
      and [models.cmp] lie outside the two modules embedded here.  Each
      helper is either a parameter of a section or has a definition whose
      comment starts with "Modelled from the spec:". *)

From Stdlib Require Import ZArith QArith Qabs Qround List Bool Ascii String.
From Stdlib Require Import Sorted.
From Stdlib Require Import Lia Lqa.
From stdpp Require Import base option list gmap strings.

Set Default Proof Using "Type".
Local Open Scope nat_scope.

(** ** Exceptions and fallible computations *)

Inductive exception : Type :=
| ValidationError
| KeyError
| TypeError
| ValueError
| IndexError
| UnboundLocalError
| ComparisonError.

Inductive result (A : Type) : Type :=
| Ok (a : A)
| Err (e : exception).
Arguments Ok {A} a.
Arguments Err {A} e.

#[global] Instance result_ret : MRet result := fun A a => Ok a.
#[global] Instance result_bind : MBind result := fun A B f m =>
  match m with
  | Ok a => f a
  | Err e => Err e
  end.
#[global] Instance result_fmap : FMap result := fun A B f m =>
  match m with
  | Ok a => Ok (f a)
  | Err e => Err e
  end.

Definition is_ok {A} (r : result A) : bool :=
  match r with Ok _ => true | Err _ => false end.

Definition raises {A} (r : result A) : Prop := exists e, r = Err e.

(** [[f(x) for x in xs]] for a fallible [f]: the first failure aborts. *)
Fixpoint map_result {A B} (f : A -> result B) (xs : list A) : result (list B) :=
  match xs with
  | [] => Ok []
  | x :: xs' => y ← f x; ys ← map_result f xs'; Ok (y :: ys)
  end.

(** ** NumPy arrays *)

Module Numpy.

(** The elements of an array, with their type: [int64] or [float64]. *)
Inductive buffer : Type :=
| Ints (xs : list Z)
| Floats (xs : list Q).

Inductive dtype : Type :=
| int64
| float64.

Record ndarray : Type := mk_ndarray {
  shape : list nat;
  elements : buffer;
  writeable : bool
}.

(** [a.dtype] *)
Definition dtype_of (a : ndarray) : dtype :=
  match elements a with
  | Ints _ => int64
  | Floats _ => float64
  end.

(** The values of the elements. *)
Definition data (a : ndarray) : list Q :=
  match elements a with
  | Ints xs => map inject_Z xs
  | Floats xs => xs
  end.

(** Number of elements that a shape holds. *)
Definition numel (sh : list nat) : nat := foldr Nat.mul 1 sh.

(** *** The [float64] format

    A finite [float64] is [m * 2^e] with [|m| < 2^53] and [-1074 <= e]. *)

Definition pow2 (e : Z) : Q := Qpower 2 e.

(** [floor (log2 a)] for a positive [a]. *)
Definition ilog2 (a : Q) : Z :=
  let e := (Z.log2 (Qnum a) - Z.log2 (Z.pos (Qden a)))%Z in
  if Qle_bool (pow2 e) a then e else (e - 1)%Z.

(** The integer nearest to a non-negative [q], a tie going to the even
    one. *)
Definition round_half_even (q : Q) : Z :=
  let f := Qfloor q in
  match Qcompare (q - inject_Z f) (1 # 2) with
  | Lt => f
  | Gt => (f + 1)%Z
  | Eq => if Z.even f then f else (f + 1)%Z
  end.

(** The [float64] nearest to [q], a tie going to the even mantissa: the
    rounding of every [float64] operation.  Magnitudes from [2^1024] on,
    which the format rounds to an infinity, are outside the model. *)
Definition float64_round (q : Q) : Q :=
  let q := Qred q in
  if Qeq_bool q 0 then 0%Q
  else
    let a := Qabs q in
    let ulp := pow2 (Z.max (ilog2 a - 52) (-1074)) in
    let r := Qred (inject_Z (round_half_even (a / ulp)) * ulp) in
    if Qle_bool 0 q then r else Qred (- r).

(** The 64 bits of the [float64] nearest to [q]: sign, biased exponent,
    fraction. *)
Definition float64_bits (q : Q) : Z :=
  let v := float64_round q in
  if Qeq_bool v 0 then 0%Z
  else
    let a := Qabs v in
    let e := ilog2 a in
    let sign := if Qle_bool 0 v then 0%Z else (2 ^ 63)%Z in
    if (e <? -1022)%Z then (sign + Qfloor (a / pow2 (-1074)))%Z
    else if (1023 <? e)%Z then (sign + 2047 * 2 ^ 52)%Z
    else (sign + (e + 1023) * 2 ^ 52
          + (Qfloor (a / pow2 (e - 52)) - 2 ^ 52))%Z.

(** The [w] bytes of [z], the low byte first. *)
Definition le_bytes (w : nat) (z : Z) : list Z :=
  map (fun k => ((z / 2 ^ (8 * Z.of_nat k)) mod 256)%Z) (seq 0 w).

Definition int64_bytes (z : Z) : list Z := le_bytes 8 (z mod 2 ^ 64)%Z.

Definition float64_bytes (q : Q) : list Z := le_bytes 8 (float64_bits q).

(** [a.tobytes()]: the bytes of the elements, eight an element. *)
Definition tobytes (a : ndarray) : list Z :=
  match elements a with
  | Ints xs => flat_map int64_bytes xs
  | Floats xs => flat_map float64_bytes xs
  end.

(** [x + y] on [float64]. *)
Definition float64_add (x y : Q) : Q := float64_round (x + y).

(** [np.sum] of a row of [float64]: the elements added from left to
    right, each addition rounded, which is the order in which NumPy adds a
    row of fewer than eight elements. *)
Definition np_sum (l : list Q) : Q := foldl float64_add 0%Q l.

(** *** Arrays *)

(** [np.array(x)]: a fresh, writeable copy, of the element type of [x]. *)
Definition array (a : ndarray) : ndarray :=
  {| shape := shape a; elements := elements a; writeable := true |}.

(** [a.flags.writeable = False] *)
Definition set_readonly (a : ndarray) : ndarray :=
  {| shape := shape a; elements := elements a; writeable := false |}.

(** [np.ones(sh)], of [float64]. *)
Definition ones (sh : list nat) : ndarray :=
  {| shape := sh; elements := Floats (repeat 1%Q (numel sh));
     writeable := true |}.

(** [a / c], elementwise; the quotient is of [float64]. *)
Definition divide (a : ndarray) (c : Q) : ndarray :=
  {| shape := shape a;
     elements := Floats (map (fun x => float64_round (x / c)) (data a));
     writeable := true |}.

Fixpoint all_eq (xs ys : list Q) : bool :=
  match xs, ys with
  | [], [] => true
  | x :: xs', y :: ys' => Qeq_bool x y && all_eq xs' ys'
  | _, _ => false
  end.

(** [np.array_equal(a, b)]: same shape and equal element values, whatever
    the element types; never raises.  The values are compared exactly;
    NumPy compares an [int64] with a [float64] element as [float64]
    values, which is the same for integers below [2^53] in magnitude. *)
Definition array_equal (a b : ndarray) : bool :=
  bool_decide (shape a = shape b) && all_eq (data a) (data b).

(** [x[k] = v] on the elements: an [int64] array takes the integer part
    of [v]. *)
Definition buffer_set (b : buffer) (k : nat) (v : Q) : buffer :=
  match b with
  | Ints xs => Ints (<[k := Z.quot (Qnum v) (Z.pos (Qden v))]> xs)
  | Floats xs => Floats (<[k := v]> xs)
  end.

(** [a.flat[k] = v]: in-place assignment of one element.  NumPy rejects it
    on an array whose [writeable] flag is off. *)
Definition setitem (a : ndarray) (k : nat) (v : Q) : result ndarray :=
  if writeable a then
    if decide (k < length (data a)) then
      Ok {| shape := shape a; elements := buffer_set (elements a) k v;
            writeable := writeable a |}
    else Err IndexError
  else Err ValueError.

(** Row [i] of a 2-D array with [n] columns. *)
Definition row (n : nat) (a : ndarray) (i : nat) : list Q :=
  take n (drop (i * n) (data a)).

(** The elements rearranged by [f], which works on elements of any type. *)
Definition rearrange (f : forall A, list A -> list A) (b : buffer) : buffer :=
  match b with
  | Ints xs => Ints (f Z xs)
  | Floats xs => Floats (f Q xs)
  end.

End Numpy.
Import Numpy.

(** ** [pyphi.constants] *)

Module Constants.

(** Modelled from the spec: the module [constants] is missing; [PAST]
    indexes the table [DIRECTIONS]. *)
Definition PAST : nat := 0.

(** Modelled from the spec: the module [constants] is missing; [FUTURE]
    indexes the table [DIRECTIONS]. *)
Definition FUTURE : nat := 1.

(** Modelled from the spec: the module [constants] is missing; the
    directions are the strings "past" (cause) and "future" (effect). *)
Definition DIRECTIONS : list string := ["past"%string; "future"%string].

(** [DIRECTIONS[k]] *)
Definition DIRECTIONS_at (k : nat) : string :=
  default ""%string (DIRECTIONS !! k).

End Constants.

(** ** [pyphi.utils] *)

Module Utils.

Definition Qlt_bool (x y : Q) : bool := negb (Qle_bool y x).

Section Tolerance.
(** The fixed numeric-equality tolerance. *)
Variable EPSILON : Q.

(** Modelled from the spec: the function [utils.eq] is missing.  Two
    values closer than the tolerance are treated as equal. *)
Definition eq (x y : Q) : bool := Qlt_bool (Qabs (x - y)) EPSILON.
End Tolerance.

(** Modelled from the spec: the function [utils.state_by_state] is missing;
    the TPM setter calls it to recognise "a square state-by-state TPM". *)
Definition state_by_state (tpm : ndarray) : bool :=
  match shape tpm with
  | [r; c] => bool_decide (r = c)
  | _ => false
  end.

(** Modelled from the spec: part of [utils.powerset], which is missing.
    The subsets of [s] with exactly [r] elements, each in the order of [s],
    listed lexicographically by position. *)
Fixpoint combinations {A} (s : list A) (r : nat) : list (list A) :=
  match r, s with
  | 0, _ => [[]]
  | S _, [] => []
  | S r', x :: s' => map (cons x) (combinations s' r') ++ combinations s' r
  end.

(** Modelled from the spec: the function [utils.powerset] is missing.  The
    full powerset of the node indices, as sorted tuples, ascending by size
    and then lexicographically. *)
Definition powerset {A} (s : list A) : list (list A) :=
  concat (map (combinations s) (seq 0 (S (length s)))).

Section Hash.
(** The digest of a sequence of bytes. *)
Variable hash_bytes : list Z -> Z.

(** Modelled from the spec: the function [utils.np_hash] is missing; it
    is a content hash: the digest of the bytes of the array. *)
Definition np_hash (a : ndarray) : Z := hash_bytes (tobytes a).
End Hash.

End Utils.

(** ** [pyphi.convert] *)

Module Convert.

(** Modelled from the spec: the module [convert] is missing.  The index
    tuples [(b_0, ..., b_{n-1})] of an array of shape [[2]*n], in row-major
    order. *)
Fixpoint all_states (n : nat) : list (list nat) :=
  match n with
  | 0 => [[]]
  | S n' => map (cons 0) (all_states n') ++ map (cons 1) (all_states n')
  end.

(** Modelled from the spec: the module [convert] is missing.  The row of
    the 2-D form that the state [(b_0, ..., b_{n-1})] names:
    [i = sum b_k * 2^k] (low-order bits belong to low-index nodes). *)
Fixpoint state2loli_index (st : list nat) : nat :=
  match st with
  | [] => 0
  | b :: st' => b + 2 * state2loli_index st'
  end.

(** The last axis of an array, [tpm.shape[-1]]. *)
Definition last_dim (a : ndarray) : nat := default 0 (last (shape a)).

(** Element [(i, s)] of a 2-D array with [n] columns. *)
Definition at2 (n : nat) (a : ndarray) (i s : nat) : Q :=
  default 0%Q (data a !! (i * n + s)).

(** Modelled from the spec: the module [convert] is missing.  For prior
    state [i] of a state-by-state TPM with [S] states, the probability that
    node [j] is ON at the next step: the probability mass of all successor
    states in which node [j] is ON, summed in [float64]. *)
Definition on_probability (S : nat) (tpm : ndarray) (i j : nat) : Q :=
  np_sum (map (at2 S tpm i) (filter (fun s => Nat.testbit s j) (seq 0 S))).

(** Modelled from the spec: the module [convert] is missing.  The setter
    of [Network.tpm] expects the N-D state-by-node form from this
    function: entry [(b_0, ..., b_{N-1}, j)] is the marginal
    ON-probability of node [j] for the prior state [i = sum b_k * 2^k]. *)
Definition state_by_state2state_by_node (tpm : ndarray) : ndarray :=
  let S := last_dim tpm in
  let N := Nat.log2 S in
  {| shape := repeat 2 N ++ [N];
     elements :=
       Floats (concat (map (fun st =>
                              map (on_probability S tpm (state2loli_index st))
                                  (seq 0 N))
                           (all_states N)));
     writeable := true |}.

(** The rows of a 2-D array with [N] columns in the order of the tensor
    indices: the index [(b_0, ..., b_{N-1})] takes the row
    [i = sum b_k * 2^k]. *)
Definition loli_rows (N : nat) (A : Type) (l : list A) : list A :=
  concat (map (fun st => take N (drop (state2loli_index st * N) l))
              (all_states N)).

(** Modelled from the spec: the module [convert] is missing.  Reshape a
    state-by-node TPM to the canonical [[2]*N + [N]] tensor: the tensor
    index [(b_0, ..., b_{N-1})] holds row [i = sum b_k * 2^k] of the 2-D
    form; an array already in canonical form is returned as it is.  The
    elements keep their type. *)
Definition to_n_dimensional (tpm : ndarray) : ndarray :=
  let N := last_dim tpm in
  if decide (shape tpm = repeat 2 N ++ [N]) then array tpm
  else
    {| shape := repeat 2 N ++ [N];
       elements := rearrange (loli_rows N) (elements tpm);
       writeable := true |}.

End Convert.

(** ** [pyphi.validate] *)

Module Validate.

Section Tolerance.
Variable EPSILON : Q.

(** Modelled from the spec: the module [validate] is missing.  A
    probability, within the numeric tolerance. *)
Definition probability (p : Q) : bool :=
  Qle_bool (- EPSILON) p && Qle_bool p (1 + EPSILON).

(** Modelled from the spec: the module [validate] is missing.  The
    state-by-state layout, [S x S] with [S = 2^N]. *)
Definition state_by_state_layout (a : ndarray) : bool :=
  match shape a with
  | [r; c] => bool_decide (r = c) && bool_decide (c = 2 ^ Nat.log2 c)
  | _ => false
  end.

(** Modelled from the spec: the module [validate] is missing.  The 2-D
    state-by-node layout, [S x N] with [S = 2^N]. *)
Definition state_by_node_2d_layout (a : ndarray) : bool :=
  let N := Convert.last_dim a in
  bool_decide (shape a = [2 ^ N; N]).

(** Modelled from the spec: the module [validate] is missing.  The N-D
    state-by-node layout, [[2]*N + [N]]. *)
Definition state_by_node_nd_layout (a : ndarray) : bool :=
  let N := Convert.last_dim a in
  bool_decide (shape a = repeat 2 N ++ [N]).

(** Modelled from the spec: the module [validate] is missing.  Each row of
    a state-by-state TPM is a distribution. *)
Definition rows_sum_to_one (a : ndarray) : bool :=
  let S := Convert.last_dim a in
  forallb (fun i => Utils.eq EPSILON (np_sum (row S a i)) 1)
          (seq 0 S).

(** Modelled from the spec: the module [validate] is missing.  A TPM is
    rank-consistent with one of the three layouts, its entries are
    probabilities, and in state-by-state form each row sums to one. *)
Definition tpm (a : ndarray) : result unit :=
  if negb (state_by_state_layout a || state_by_node_2d_layout a
           || state_by_node_nd_layout a)
  then Err ValidationError
  else if negb (forallb probability (data a)) then Err ValidationError
  else if state_by_state_layout a && negb (rows_sum_to_one a)
  then Err ValidationError
  else Ok ().

(** Modelled from the spec: the module [validate] is missing.  A
    connectivity matrix is square, binary-valued and [N x N]. *)
Definition connectivity_matrix (N : nat) (cm : ndarray) : result unit :=
  if negb (bool_decide (shape cm = [N; N])) then Err ValidationError
  else if negb (forallb (fun x => Qeq_bool x 0 || Qeq_bool x 1) (data cm))
  then Err ValidationError
  else Ok ().
End Tolerance.

End Validate.

(** ** Python built-ins used by the sources *)

Module Builtins.

Local Open Scope Z_scope.

(** A string is the sequence of its code points, all below 256.  The
    characters that [int] skips around a number: the space and the
    controls 9 to 13 and, off the ASCII range, the next-line control
    (133) and the no-break space (160).  The separators 28 to 31 are not
    skipped. *)
Definition is_space (c : ascii) : bool :=
  let n := nat_of_ascii c in
  bool_decide (n = 32%nat) || (Nat.leb 9 n && Nat.leb n 13)
  || bool_decide (n = 133%nat) || bool_decide (n = 160%nat).

Definition digit_of (c : ascii) : option Z :=
  let n := Z.of_nat (nat_of_ascii c) in
  if (48 <=? n) && (n <=? 57) then Some (n - 48) else None.

Fixpoint lstrip (s : list ascii) : list ascii :=
  match s with
  | c :: s' => if is_space c then lstrip s' else s
  | [] => []
  end.

Definition strip (s : list ascii) : list ascii :=
  rev (lstrip (rev (lstrip s))).

(** Decimal digits, where single underscores may separate digits.
    [after_digit] tells whether the previous character was a digit. *)
Fixpoint digits (acc : Z) (after_digit : bool) (s : list ascii) : option Z :=
  match s with
  | [] => if after_digit then Some acc else None
  | c :: s' =>
      match digit_of c with
      | Some d => digits (10 * acc + d) true s'
      | None =>
          if bool_decide (c = "_"%char) && after_digit
          then digits acc false s'
          else None
      end
  end.

(** [int(s)] for a string [s]: optional surrounding white space, an
    optional sign, decimal digits. *)
Definition int_of_str (s : string) : result Z :=
  let body := strip (list_ascii_of_string s) in
  let parsed :=
    match body with
    | c :: rest =>
        if bool_decide (c = "-"%char) then Z.opp <$> digits 0 false rest
        else if bool_decide (c = "+"%char) then digits 0 false rest
        else digits 0 false body
    | [] => None
    end in
  match parsed with
  | Some z => Ok z
  | None => Err ValueError
  end.

Fixpoint insert_sorted (x : Z) (l : list Z) : list Z :=
  match l with
  | [] => [x]
  | y :: l' =>
      if x <? y then x :: l
      else if x =? y then l
      else y :: insert_sorted x l'
  end.

(** [sorted(set(xs))] for integers: each value once, ascending. *)
Definition sorted_set (xs : list Z) : list Z := foldr insert_sorted [] xs.

End Builtins.

(** ** [pyphi.network] *)

Module Network.

Definition purview : Type := list nat.

(** Modelled from the spec: the module [cache] is missing.  A purview
    cache is a memo table keyed by [(direction, mechanism)]. *)
Abbreviation PurviewCache := (gmap (string * list nat) (list purview)).

Record Network : Type := mk_Network {
  _tpm : ndarray;
  _tpm_hash : Z;
  _num_states : nat;
  _node_indices : list nat;
  _node_labels : option (list string);
  _connectivity_matrix : ndarray;
  _cm_hash : Z;
  _perturb_vector : ndarray;
  _pv_hash : Z;
  purview_cache : PurviewCache
}.

(** An element of the sequence given to [generate_node_indices]. *)
Inductive node : Type :=
| Label (s : string)
| Index (i : Z).

(** The objects a [Network] may be compared with. *)
Inductive object : Type :=
| ONetwork (n : Network)
| OArray (a : ndarray)
| OInt (z : Z)
| OStr (s : string)
| ONone.

(** The dictionary that [to_json] returns. *)
Record json : Type := mk_json {
  json_tpm : ndarray;
  json_cm : ndarray;
  json_size : nat
}.

(** The object before [__init__] has set its attributes. *)
Definition blank : Network :=
  let nil := {| shape := []; elements := Floats []; writeable := true |} in
  {| _tpm := nil; _tpm_hash := 0; _num_states := 0; _node_indices := [];
     _node_labels := None; _connectivity_matrix := nil; _cm_hash := 0;
     _perturb_vector := nil; _pv_hash := 0; purview_cache := ∅ |}.

(** Attribute assignment: the record with one group of fields replaced. *)
Definition with_tpm (self : Network) (a : ndarray) (h : Z) : Network :=
  {| _tpm := a; _tpm_hash := h;
     _num_states := _num_states self; _node_indices := _node_indices self;
     _node_labels := _node_labels self;
     _connectivity_matrix := _connectivity_matrix self;
     _cm_hash := _cm_hash self;
     _perturb_vector := _perturb_vector self; _pv_hash := _pv_hash self;
     purview_cache := purview_cache self |}.

Definition with_connectivity_matrix (self : Network) (a : ndarray) (h : Z)
    : Network :=
  {| _tpm := _tpm self; _tpm_hash := _tpm_hash self;
     _num_states := _num_states self; _node_indices := _node_indices self;
     _node_labels := _node_labels self;
     _connectivity_matrix := a; _cm_hash := h;
     _perturb_vector := _perturb_vector self; _pv_hash := _pv_hash self;
     purview_cache := purview_cache self |}.

Definition with_perturb_vector (self : Network) (a : ndarray) (h : Z)
    : Network :=
  {| _tpm := _tpm self; _tpm_hash := _tpm_hash self;
     _num_states := _num_states self; _node_indices := _node_indices self;
     _node_labels := _node_labels self;
     _connectivity_matrix := _connectivity_matrix self;
     _cm_hash := _cm_hash self;
     _perturb_vector := a; _pv_hash := h;
     purview_cache := purview_cache self |}.

Definition with_nodes (self : Network) (num_states : nat)
    (node_indices : list nat) (node_labels : option (list string))
    : Network :=
  {| _tpm := _tpm self; _tpm_hash := _tpm_hash self;
     _num_states := num_states; _node_indices := node_indices;
     _node_labels := node_labels;
     _connectivity_matrix := _connectivity_matrix self;
     _cm_hash := _cm_hash self;
     _perturb_vector := _perturb_vector self; _pv_hash := _pv_hash self;
     purview_cache := purview_cache self |}.

Definition with_purview_cache (self : Network) (c : PurviewCache)
    : Network :=
  {| _tpm := _tpm self; _tpm_hash := _tpm_hash self;
     _num_states := _num_states self; _node_indices := _node_indices self;
     _node_labels := _node_labels self;
     _connectivity_matrix := _connectivity_matrix self;
     _cm_hash := _cm_hash self;
     _perturb_vector := _perturb_vector self; _pv_hash := _pv_hash self;
     purview_cache := c |}.

(** *** Properties *)

Definition tpm (self : Network) : ndarray := _tpm self.
Definition connectivity_matrix (self : Network) : ndarray :=
  _connectivity_matrix self.
Definition perturb_vector (self : Network) : ndarray := _perturb_vector self.
Definition size (self : Network) : nat := Convert.last_dim (tpm self).
Definition num_states (self : Network) : nat := _num_states self.
Definition node_indices (self : Network) : list nat := _node_indices self.
Definition node_labels (self : Network) : option (list string) :=
  _node_labels self.

(** *** [irreducible_purviews] *)

Section Purviews.
(** [utils.block_reducible(cm, nodes1, nodes2)]: whether the connections
    from [nodes1] to [nodes2] are reducible.  The function is missing
    from the sources and stays a parameter. *)
Variable block_reducible : ndarray -> list nat -> list nat -> bool.

(** The inner function [reducible]: neither branch binds [_from] and
    [to] for a direction that is not in [DIRECTIONS]. *)
Definition reducible (cm : ndarray) (direction : string)
    (mechanism : list nat) (purview : purview) : result bool :=
  if decide (direction = Constants.DIRECTIONS_at Constants.PAST) then
    let '(_from, to) := (purview, mechanism) in
    Ok (block_reducible cm _from to)
  else if decide (direction = Constants.DIRECTIONS_at Constants.FUTURE) then
    let '(_from, to) := (mechanism, purview) in
    Ok (block_reducible cm _from to)
  else Err UnboundLocalError.

Fixpoint irreducible_purviews (cm : ndarray) (direction : string)
    (mechanism : list nat) (purviews : list purview)
    : result (list purview) :=
  match purviews with
  | [] => Ok []
  | purview :: rest =>
      r ← reducible cm direction mechanism purview;
      kept ← irreducible_purviews cm direction mechanism rest;
      Ok (if negb r then purview :: kept else kept)
  end.

(** Modelled from the spec: the decorator [cache.method] is missing.  A
    call looks its key up in the network's purview cache, and computes
    and stores the value on a miss. *)
Definition _potential_purviews (self : Network) (direction : string)
    (mechanism : list nat) : result (list purview) * Network :=
  let key := (direction, mechanism) in
  match purview_cache self !! key with
  | Some hit => (Ok hit, self)
  | None =>
      let all_purviews := Utils.powerset (_node_indices self) in
      match irreducible_purviews (connectivity_matrix self) direction
              mechanism all_purviews with
      | Ok value =>
          (Ok value,
           with_purview_cache self (<[key := value]> (purview_cache self)))
      | Err e => (Err e, self)
      end
  end.
End Purviews.

(** *** Construction, equality and hashing *)

Section Methods.
Variable EPSILON : Q.
Variable hash_bytes : list Z -> Z.
(** Python's [hash] of a tuple of integers. *)
Variable hash_tuple : list Z -> Z.

Definition tpm_setter (self : Network) (tpm : ndarray) : result Network :=
  (* Cast TPM to np.array. *)
  let tpm := array tpm in
  (* Validate TPM. *)
  _ ← Validate.tpm EPSILON tpm;
  (* Convert to N-D state-by-node if we were given a square
     state-by-state TPM. Otherwise, force conversion to N-D format. *)
  let new :=
    if Utils.state_by_state tpm
    then Convert.state_by_state2state_by_node tpm
    else Convert.to_n_dimensional tpm in
  (* Make the underlying attribute immutable. *)
  let new := set_readonly new in
  (* Update hash. *)
  Ok (with_tpm self new (Utils.np_hash hash_bytes new)).

Definition connectivity_matrix_setter (self : Network)
    (cm : option ndarray) : Network :=
  let new :=
    match cm with
    | Some cm => array cm
    | None => ones [size self; size self]
    end in
  let new := set_readonly new in
  with_connectivity_matrix self new (Utils.np_hash hash_bytes new).

Definition perturb_vector_setter (self : Network)
    (perturb_vector : option ndarray) : Network :=
  let new :=
    match perturb_vector with
    | Some pv => array pv
    | None => divide (ones [size self]) 2
    end in
  let new := set_readonly new in
  with_perturb_vector self new (Utils.np_hash hash_bytes new).

(** Modelled from the spec: [validate.network] is missing; the network
    is usable when its TPM is valid and its connectivity matrix matches
    its node count. *)
Definition validate_network (self : Network) : result unit :=
  _ ← Validate.tpm EPSILON (tpm self);
  Validate.connectivity_matrix (size self) (connectivity_matrix self).

Definition __init__ (tpm : ndarray) (connectivity_matrix : option ndarray)
    (node_labels : option (list string)) (perturb_vector : option ndarray)
    (purview_cache : option PurviewCache) : result Network :=
  self ← tpm_setter blank tpm;
  let self :=
    with_nodes self (2 ^ size self) (seq 0 (size self)) node_labels in
  let self := connectivity_matrix_setter self connectivity_matrix in
  let self := perturb_vector_setter self perturb_vector in
  let self := with_purview_cache self (default ∅ purview_cache) in
  _ ← validate_network self;
  Ok self.

Definition __eq__ (self : Network) (other : object) : bool :=
  match other with
  | ONetwork other =>
      array_equal (tpm self) (tpm other)
      && array_equal (connectivity_matrix self) (connectivity_matrix other)
      && array_equal (perturb_vector self) (perturb_vector other)
  | _ => false
  end.

Definition __ne__ (self : Network) (other : object) : bool :=
  negb (__eq__ self other).

Definition __hash__ (self : Network) : Z :=
  hash_tuple [_tpm_hash self; _cm_hash self; _pv_hash self].

Definition to_json (self : Network) : json :=
  {| json_tpm := tpm self;
     json_cm := connectivity_matrix self;
     json_size := size self |}.

(** [from_json] once the file has been read into [network_dictionary];
    reading and decoding the file are outside the model. *)
Definition from_json (network_dictionary : json) : result Network :=
  let tpm := json_tpm network_dictionary in
  let cm := json_cm network_dictionary in
  __init__ tpm (Some cm) None None None.
End Methods.

(** *** Node labels *)

(** [dict(zip(keys, values))]: a later pair replaces an earlier one with
    the same key. *)
Definition dict_zip (keys : list string) (values : list nat)
    : gmap string nat :=
  foldl (fun m kv => <[kv.1 := kv.2]> m) ∅ (zip keys values).

Definition labels2indices (self : Network) (labels : list string)
    : result (list nat) :=
  match node_labels self with
  | None => Err TypeError
  | Some node_labels =>
      let _map := dict_zip node_labels (node_indices self) in
      map_result (fun label =>
                    match _map !! label with
                    | Some i => Ok i
                    | None => Err KeyError
                    end) labels
  end.

Definition is_str (n : node) : bool :=
  match n with Label _ => true | Index _ => false end.

(** [int(node)] *)
Definition int (n : node) : result Z :=
  match n with
  | Label s => Builtins.int_of_str s
  | Index i => Ok i
  end.

Definition label_of (n : node) : string :=
  match n with Label s => s | Index _ => ""%string end.

Definition generate_node_indices (self : Network) (nodes : list node)
    : result (list Z) :=
  indices ←
    (if decide (length nodes = 0) then Ok []
     else if forallb is_str nodes then
       (map Z.of_nat) <$> labels2indices self (map label_of nodes)
     else map_result int nodes);
  Ok (Builtins.sorted_set indices).

End Network.

(** ** [pyphi.models.cmp] *)

Module Cmp.

(** The values that [order_by] lists: a float, an integer, a tuple of
    integers. *)
Inductive key : Type :=
| KFloat (x : Q)
| KInt (n : Z)
| KTuple (t : list Z).

(** Python's [<] on two tuples of integers: the first pair of unequal
    elements decides, and a proper prefix is smaller. *)
Fixpoint tuple_lt (s t : list Z) : bool :=
  match s, t with
  | [], [] => false
  | [], _ :: _ => true
  | _ :: _, [] => false
  | x :: s', y :: t' => if (x =? y)%Z then tuple_lt s' t' else (x <? y)%Z
  end.

(** Modelled from the spec: the module [models.cmp] is missing.  The mixin
    [Orderable] is driven by attribute lists: it orders objects by the list
    that [order_by] returns, and refuses to order two objects unless the
    attributes named in [unorderable_unless_eq] are equal. *)
Class Orderable (A : Type) : Type := {
  order_by : A -> list key;
  unorderable_unless_eq : list string;
  (** [getattr(a, name) == getattr(b, name)] *)
  attr_eq : string -> A -> A -> bool
}.

(** Python's [==] on two elements of such lists: numbers are equal when
    their values are, with no tolerance; tuples when their elements are. *)
Definition key_eq (a b : key) : bool :=
  match a, b with
  | KFloat x, KFloat y => Qeq_bool x y
  | KFloat x, KInt n => Qeq_bool x (inject_Z n)
  | KInt m, KFloat y => Qeq_bool (inject_Z m) y
  | KInt m, KInt n => (m =? n)%Z
  | KTuple s, KTuple t => bool_decide (s = t)
  | _, _ => false
  end.

(** Python's [<] on two elements of such lists; a number and a tuple are
    not ordered. *)
Definition key_lt (a b : key) : result bool :=
  match a, b with
  | KFloat x, KFloat y => Ok (Utils.Qlt_bool x y)
  | KFloat x, KInt n => Ok (Utils.Qlt_bool x (inject_Z n))
  | KInt m, KFloat y => Ok (Utils.Qlt_bool (inject_Z m) y)
  | KInt m, KInt n => Ok (m <? n)%Z
  | KTuple s, KTuple t => Ok (tuple_lt s t)
  | _, _ => Err TypeError
  end.

(** Python's [<] on two lists: the first pair of elements that are not
    [==] decides by its [<]; when there is none, the shorter list is the
    smaller one. *)
Fixpoint list_lt (xs ys : list key) : result bool :=
  match xs, ys with
  | [], [] => Ok false
  | [], _ :: _ => Ok true
  | _ :: _, [] => Ok false
  | x :: xs', y :: ys' =>
      if key_eq x y then list_lt xs' ys' else key_lt x y
  end.

Section Operators.
Context {A : Type} `{Orderable A}.

(** Modelled from the spec: the module [models.cmp] is missing.  Whether
    two objects agree on each of the named attributes. *)
Definition general_eq (a b : A) (attributes : list string) : bool :=
  forallb (fun name => attr_eq name a b) attributes.

(** Modelled from the spec: the module [models.cmp] is missing.  [a < b]:
    an error unless the attributes of [unorderable_unless_eq] are equal,
    else [a.order_by() < b.order_by()], a comparison of two Python
    lists. *)
Definition __lt__ (a b : A) : result bool :=
  if negb (general_eq a b unorderable_unless_eq)
  then Err ComparisonError
  else list_lt (order_by a) (order_by b).

(** Modelled from the spec: the module [models.cmp] is missing.
    [a > b] is [b < a]. *)
Definition __gt__ (a b : A) : result bool := __lt__ b a.
End Operators.

End Cmp.

(** ** The subsystem, an external collaborator *)

Module Subsystem.

(** A subsystem exposes its node indices, its state, its network and its
    length. *)
Record Subsystem : Type := mk_Subsystem {
  node_indices : list nat;
  state : list nat;
  network : Network.Network
}.

(** [len(subsystem)]: the number of nodes. *)
Definition __len__ (self : Subsystem) : nat := length (node_indices self).

End Subsystem.

(** ** [pyphi.models.big_phi] *)

Module BigPhi.

(** A cause-effect structure, an opaque ordered collection; a record of
    it is kept as its mechanism. *)
Definition CauseEffectStructure : Type := list (list nat).

Record SystemIrreducibilityAnalysis : Type := mk_SIA {
  phi : Q;
  unpartitioned_ces : CauseEffectStructure;
  partitioned_ces : CauseEffectStructure;
  subsystem : Subsystem.Subsystem;
  cut_subsystem : Subsystem.Subsystem;
  time : option Q;
  small_phi_time : option Q
}.

(** The network the subsystem belongs to. *)
Definition network (self : SystemIrreducibilityAnalysis) : Network.Network :=
  Subsystem.network (subsystem self).

Definition order_by (self : SystemIrreducibilityAnalysis) : list Cmp.key :=
  [Cmp.KFloat (phi self);
   Cmp.KInt (Z.of_nat (Subsystem.__len__ (subsystem self)));
   Cmp.KTuple (map Z.of_nat (Subsystem.node_indices (subsystem self)))].

#[global] Instance SIA_Orderable
  : Cmp.Orderable SystemIrreducibilityAnalysis := {|
  Cmp.order_by := order_by;
  Cmp.unorderable_unless_eq := ["network"%string];
  Cmp.attr_eq := fun name a b =>
    if decide (name = "network"%string)
    then Network.__eq__ (network a) (Network.ONetwork (network b))
    else false
|}.

Section Tolerance.
Variable EPSILON : Q.

(** A [SystemIrreducibilityAnalysis] evaluates to [True] if it has
    big-phi greater than zero. *)
Definition __bool__ (self : SystemIrreducibilityAnalysis) : bool :=
  negb (Utils.eq EPSILON (phi self) 0).
End Tolerance.

Definition _null_sia (subsystem : Subsystem.Subsystem) (phi : Q)
    : SystemIrreducibilityAnalysis :=
  {| subsystem := subsystem; cut_subsystem := subsystem; phi := phi;
     unpartitioned_ces := []; partitioned_ces := [];
     time := None; small_phi_time := None |}.

End BigPhi.

(** * Vocabulary of the specification and sample data *)

Module Spec.
Import BigPhi.

Section Tolerance.
Variable EPSILON : Q.

(** The order of the specification, in its words: by [phi] first, two
    values closer than the tolerance being tied; on a tie by subsystem
    size; on a further tie lexicographically by the node-index tuple. *)
Definition sia_lt (a b : SystemIrreducibilityAnalysis) : bool :=
  if Utils.eq EPSILON (phi a) (phi b) then
    if Subsystem.__len__ (subsystem a) =? Subsystem.__len__ (subsystem b) then
      Cmp.tuple_lt (map Z.of_nat (Subsystem.node_indices (subsystem a)))
                   (map Z.of_nat (Subsystem.node_indices (subsystem b)))
    else Subsystem.__len__ (subsystem a) <? Subsystem.__len__ (subsystem b)
  else Utils.Qlt_bool (phi a) (phi b).

End Tolerance.

(** The order of the [order_by] lists of two analyses: by [phi] first, on
    equal values of [phi] by subsystem size, on equal sizes
    lexicographically by the node-index tuple. *)
Definition sia_lt_exact (a b : SystemIrreducibilityAnalysis) : bool :=
  if Qeq_bool (phi a) (phi b) then
    if Subsystem.__len__ (subsystem a) =? Subsystem.__len__ (subsystem b) then
      Cmp.tuple_lt (map Z.of_nat (Subsystem.node_indices (subsystem a)))
                   (map Z.of_nat (Subsystem.node_indices (subsystem b)))
    else Subsystem.__len__ (subsystem a) <? Subsystem.__len__ (subsystem b)
  else Utils.Qlt_bool (phi a) (phi b).

Section Purviews.
Variable block_reducible : ndarray -> list nat -> list nat -> bool.

(** The connectivity that is tested for a purview: from the purview to
    the mechanism for "past", from the mechanism to the purview for
    "future". *)
Definition reducible_over (cm : ndarray) (direction : string)
    (mechanism : list nat) (purview : Network.purview) : bool :=
  if decide (direction = "past"%string)
  then block_reducible cm purview mechanism
  else block_reducible cm mechanism purview.

(** The network after a sequence of calls of [_potential_purviews], each
    given by its direction and its mechanism. *)
Fixpoint run_queries (self : Network.Network)
    (queries : list (string * list nat)) : Network.Network :=
  match queries with
  | [] => self
  | (direction, mechanism) :: rest =>
      run_queries
        (Network._potential_purviews block_reducible self direction
           mechanism).2
        rest
  end.

(** Every entry of the purview cache is what [irreducible_purviews]
    computes for its key. *)
Definition cache_consistent (self : Network.Network) : Prop :=
  forall direction mechanism hit,
    Network.purview_cache self !! (direction, mechanism) = Some hit ->
    Network.irreducible_purviews block_reducible
      (Network.connectivity_matrix self) direction mechanism
      (Utils.powerset (Network.node_indices self)) = Ok hit.
End Purviews.

(** The stored TPM for an input TPM: the canonical N-D state-by-node
    form, read-only. *)
Definition canonical_tpm (tpm : ndarray) : ndarray :=
  set_readonly
    (if Utils.state_by_state (array tpm)
     then Convert.state_by_state2state_by_node (array tpm)
     else Convert.to_n_dimensional (array tpm)).

(** Whether an object is a [Network] instance. *)
Definition is_network (o : Network.object) : bool :=
  match o with Network.ONetwork _ => true | _ => false end.

(** The index that the label-to-index map of a network gives a label. *)
Definition label_index (self : Network.Network) (label : string)
    : option nat :=
  match Network.node_labels self with
  | Some labels =>
      Network.dict_zip labels (Network.node_indices self) !! label
  | None => None
  end.

(** The two temporal directions. *)
Definition valid_direction (direction : string) : bool :=
  bool_decide (direction = "past"%string)
  || bool_decide (direction = "future"%string).

(** Two analyses whose networks are content-equal. *)
Definition comparable (a b : SystemIrreducibilityAnalysis) : bool :=
  Network.__eq__ (network a) (Network.ONetwork (network b)).

End Spec.

Module Sample.
Import BigPhi.

(** A tolerance of [1e-6]. *)
Definition epsilon : Q := 1 # 1000000.

(** A digest and a tuple hash to compute with. *)
Definition hash_bytes (bs : list Z) : Z :=
  foldr (fun b h => ((b + 257 * h) mod 2305843009213693951)%Z) 1%Z bs.

Definition hash_tuple (hs : list Z) : Z :=
  foldr (fun x h => ((x + 1000003 * h) mod 2305843009213693951)%Z) 7%Z hs.

(** The trivial case of block reducibility: an empty side. *)
Definition block_reducible (cm : ndarray) (nodes1 nodes2 : list nat) : bool :=
  bool_decide (nodes1 = []) || bool_decide (nodes2 = []).

(** A two-node network that copies each node's state: the state-by-node
    TPM [[[0, 0], [1, 0], [0, 1], [1, 1]]] in 2-D form, rows in LOLI order,
    given as integers. *)
Definition copy_tpm_2d : ndarray :=
  {| shape := [4; 2];
     elements := Ints [0; 0;  1; 0;  0; 1;  1; 1]%Z;
     writeable := true |}.

(** A two-node network that negates each node's state, given as
    integers. *)
Definition flip_tpm_2d : ndarray :=
  {| shape := [4; 2];
     elements := Ints [1; 1;  0; 1;  1; 0;  0; 0]%Z;
     writeable := true |}.

(** The dynamics of [copy_tpm_2d] in state-by-state form. *)
Definition copy_tpm_sbs : ndarray :=
  {| shape := [4; 4];
     elements := Floats [1; 0; 0; 0;
                         0; 1; 0; 0;
                         0; 0; 1; 0;
                         0; 0; 0; 1]%Q;
     writeable := true |}.

Definition make (tpm : ndarray) (cm pv : option ndarray)
    (labels : option (list string)) : Network.Network :=
  match Network.__init__ epsilon hash_bytes tpm cm labels pv None with
  | Ok n => n
  | Err _ => Network.blank
  end.

Definition net : Network.Network := make copy_tpm_2d None None None.

(** The network built from the state-by-state form. *)
Definition net_sbs : Network.Network := make copy_tpm_sbs None None None.

(** The all-ones connectivity matrix [[[1, 1], [1, 1]]], given as
    integers, and [net] built with it. *)
Definition ones_ints : ndarray :=
  {| shape := [2; 2]; elements := Ints [1; 1; 1; 1]%Z; writeable := true |}.

Definition net_cm_ints : Network.Network :=
  make copy_tpm_2d (Some ones_ints) None None.

(** The same network under a perturbation vector that is not the
    default one. *)
Definition biased : ndarray :=
  {| shape := [2]; elements := Floats [1 # 10; 9 # 10]%Q;
     writeable := true |}.

Definition net_biased : Network.Network :=
  make copy_tpm_2d None (Some biased) None.

(** [net] after the assignment [net.tpm = flip_tpm_2d]. *)
Definition net_reassigned : Network.Network :=
  match Network.tpm_setter epsilon hash_bytes net flip_tpm_2d with
  | Ok n => n
  | Err _ => Network.blank
  end.

(** The same network with the node labels "A" and "B". *)
Definition net_labelled : Network.Network :=
  make copy_tpm_2d None None (Some ["A"%string; "B"%string]).

Definition sia (p : Q) (nodes : list nat) : SystemIrreducibilityAnalysis :=
  _null_sia {| Subsystem.node_indices := nodes;
               Subsystem.state := map (fun _ => 0) nodes;
               Subsystem.network := net |} p.

(** An analysis of [net] with [phi = 0.05]. *)
Definition sia_irreducible : SystemIrreducibilityAnalysis :=
  sia (1 # 20) [0; 1].

(** Two analyses of [net] whose [phi] values, [0.0] and [1e-12], are
    closer than the tolerance: one of the whole network, one of the
    node 1. *)
Definition sia_whole : SystemIrreducibilityAnalysis := sia 0 [0; 1].
Definition sia_part : SystemIrreducibilityAnalysis :=
  sia (1 # 1000000000000) [1].

End Sample.

(** * Usage of a network over time *)

Module Usage.

(** An operation that a user performs on a network after construction:
    an assignment to one of the three properties, or a call of
    [_potential_purviews]. *)
Inductive operation : Type :=
| SetTpm (tpm : ndarray)
| SetConnectivityMatrix (cm : option ndarray)
| SetPerturbVector (pv : option ndarray)
| PotentialPurviews (direction : string) (mechanism : list nat).

Section Run.
Variable EPSILON : Q.
Variable hash_bytes : list Z -> Z.
Variable block_reducible : ndarray -> list nat -> list nat -> bool.

(** One operation; an assignment that raises leaves the network as it
    was. *)
Definition step (self : Network.Network) (op : operation) : Network.Network :=
  match op with
  | SetTpm tpm =>
      match Network.tpm_setter EPSILON hash_bytes self tpm with
      | Ok self' => self'
      | Err _ => self
      end
  | SetConnectivityMatrix cm =>
      Network.connectivity_matrix_setter hash_bytes self cm
  | SetPerturbVector pv => Network.perturb_vector_setter hash_bytes self pv
  | PotentialPurviews direction mechanism =>
      (Network._potential_purviews block_reducible self direction
         mechanism).2
  end.

Definition run (self : Network.Network) (ops : list operation)
    : Network.Network :=
  foldl step self ops.

(** The three arrays are read-only and each stored hash is the hash of
    the array it belongs to. *)
Definition coherent (self : Network.Network) : Prop :=
  writeable (Network.tpm self) = false
  /\ writeable (Network.connectivity_matrix self) = false
  /\ writeable (Network.perturb_vector self) = false
  /\ Network._tpm_hash self = Utils.np_hash hash_bytes (Network.tpm self)
  /\ Network._cm_hash self
     = Utils.np_hash hash_bytes (Network.connectivity_matrix self)
  /\ Network._pv_hash self
     = Utils.np_hash hash_bytes (Network.perturb_vector self).
End Run.

End Usage.

(** * [pyphi.visualize.phi_structure] *)

Module PhiStructure.

(** An element of a float array: a slot of [np.empty] that has not been
    written, NaN, or a number. *)
Inductive cell : Type :=
| Uninit
| NaN
| Num (q : Q).

Definition is_nan (c : cell) : bool :=
  match c with NaN => true | _ => false end.

(** [np.empty(n)] *)
Definition empty (n : nat) : list cell := repeat Uninit n.

(** Whether the slice [start::step] selects the index [i]. *)
Definition selects (start step i : nat) : bool :=
  (start <=? i) && ((i - start) mod step =? 0).

(** The number of elements that [x[start::step]] has when [x] has [len]. *)
Definition slice_length (start step len : nat) : nat :=
  length (List.filter (selects start step) (seq 0 len)).

(** Write the elements of [src], one after the other, to the selected
    slots of [x]; [pos] is the index of the head of [x]. *)
Fixpoint assign (start step pos : nat) (x src : list cell) : list cell :=
  match x with
  | [] => []
  | c :: x' =>
      if selects start step pos then
        match src with
        | v :: src' => v :: assign start step (S pos) x' src'
        | [] => c :: assign start step (S pos) x' []
        end
      else c :: assign start step (S pos) x' src
  end.

(** [x[start::step] = v] for a scalar [v]. *)
Definition setitem_slice_scalar (start step : nat) (x : list cell) (v : cell)
    : list cell :=
  assign start step 0 x (repeat v (length x)).

(** [x[start::step] = src] for an array [src]: NumPy wants as many
    elements as the slice has, or a single one, which it broadcasts. *)
Definition setitem_slice (start step : nat) (x src : list cell)
    : result (list cell) :=
  if decide (length src = slice_length start step (length x))
  then Ok (assign start step 0 x src)
  else match src with
       | [v] => Ok (setitem_slice_scalar start step x v)
       | _ => Err ValueError
       end.

Definition _individual_lines_from_one_dimensional_coords
    (one_dimensional_coords : list (Q * Q)) : result (list cell) :=
  let x := empty (length one_dimensional_coords * 3) in
  x ← setitem_slice 0 3 x (map (fun p => Num p.1) one_dimensional_coords);
  x ← setitem_slice 1 3 x (map (fun p => Num p.2) one_dimensional_coords);
  Ok (setitem_slice_scalar 2 3 x NaN).

(** [np.repeat(values, 3)] *)
Definition repeat3 (values : list cell) : list cell :=
  flat_map (fun v => [v; v; v]) values.

Definition line_color_values (values : list Q) : list cell :=
  let values := map Num values in
  let colors := repeat3 values in
  setitem_slice_scalar 2 3 colors NaN.

(** Triples stacked in one array, and a triple with its slot [r]
    replaced: the vocabulary for arrays that are written with a stride of
    three. *)
Definition stacked (triples : list (cell * cell * cell)) : list cell :=
  flat_map (fun t => [t.1.1; t.1.2; t.2]) triples.

Definition put (r : nat) (t : cell * cell * cell) (v : cell)
    : cell * cell * cell :=
  match r with
  | 0 => (v, t.1.2, t.2)
  | 1 => (t.1.1, v, t.2)
  | _ => (t.1.1, t.1.2, v)
  end.

(** [np.arange(stop, step=step)] *)
Definition arange (stop step : nat) : list nat :=
  map (fun k => k * step) (seq 0 ((stop + step - 1) / step)).

(** [np.tile(a, (reps, 1))]: [reps] rows, each a copy of [a]. *)
Definition tile (a : list nat) (reps : nat) : list (list nat) :=
  repeat a reps.

(** [rows + column] for a column vector with one entry per row. *)
Definition add_column (rows : list (list nat)) (column : list nat)
    : list (list nat) :=
  zip_with (fun row c => map (fun v => v + c) row) rows column.

(** The triangles of [_plot_three_relation_faces_single_trace]: the
    vertices are stacked triples, so the triangles are
    [(i, j, k) = [0, 1, 2], [3, 4, 5], ...]. *)
Definition triangles (intensities : list Q)
    : result (list nat * list nat * list nat) :=
  let relata_indices := arange (length intensities * 3) 3 in
  match add_column (tile relata_indices 3) (arange 3 1) with
  | [i; j; k] => Ok (i, j, k)
  | _ => Err ValueError
  end.

Section Relations.
(** A relation and a relatum are external collaborators: a relation has
    faces, each a collection of relata, and numeric attributes. *)
Variable relation : Type.
Variable relatum : Type.
Variable faces : relation -> list (list relatum).
Variable getattr : relation -> string -> Q.

Definition face : Type := list relatum.

(** [grouped_relations[len(face)].append((value, face))] on a
    [defaultdict(list)]. *)
Definition append_face (grouped : gmap nat (list (Q * face)))
    (entry : Q * face) : gmap nat (list (Q * face)) :=
  let degree := length entry.2 in
  <[degree := default [] (grouped !! degree) ++ [entry]]> grouped.

(** Group relations by degree. *)
Definition group_by_degree (relations : list relation) (value_attr : string)
    : gmap nat (list (Q * face)) :=
  foldl (fun grouped relation =>
           foldl (fun grouped face =>
                    append_face grouped (getattr relation value_attr, face))
                 grouped (faces relation))
        ∅ relations.

(** [sorted(entries, key=lambda x: x[0])]: ascending by value, entries
    with one value in the order they had. *)
Fixpoint insert_by_value (e : Q * face) (l : list (Q * face))
    : list (Q * face) :=
  match l with
  | [] => [e]
  | e' :: l' =>
      if Qle_bool e.1 e'.1 then e :: l else e' :: insert_by_value e l'
  end.

Definition sorted_by_value (l : list (Q * face)) : list (Q * face) :=
  foldr insert_by_value [] l.

(** The groups of [plot_phi_structure], each sorted for deterministic
    traversal. *)
Definition grouped_relations (relations : list relation)
    (value_attr : string) : gmap nat (list (Q * face)) :=
  sorted_by_value <$> group_by_degree relations value_attr.

(** [grouped_relations[degree]] on a [defaultdict(list)]. *)
Definition group (grouped : gmap nat (list (Q * face))) (degree : nat)
    : list (Q * face) :=
  default [] (grouped !! degree).
End Relations.

End PhiStructure.

(** * Facts *)

(** ** Tolerance comparisons *)

Section ToleranceFacts.
Variable EPSILON : Q.

Lemma Qlt_bool_iff (x y : Q) : Utils.Qlt_bool x y = true <-> (x < y)%Q.
Proof.
  unfold Utils.Qlt_bool. rewrite negb_true_iff.
  split.
  - intros Hb. apply Qnot_le_lt. intros Hle.
    apply Qle_bool_iff in Hle. congruence.
  - intros Hlt. destruct (Qle_bool y x) eqn:E; [|reflexivity].
    apply Qle_bool_iff in E. exfalso. exact (Qlt_not_le _ _ Hlt E).
Qed.

Lemma Qlt_bool_false_iff (x y : Q) : Utils.Qlt_bool x y = false <-> (y <= x)%Q.
Proof.
  unfold Utils.Qlt_bool. rewrite negb_false_iff. apply Qle_bool_iff.
Qed.

Lemma eq_iff (x y : Q) :
  Utils.eq EPSILON x y = true <-> (- EPSILON < x - y /\ x - y < EPSILON)%Q.
Proof.
  unfold Utils.eq. rewrite Qlt_bool_iff. apply Qabs_Qlt_condition.
Qed.

Lemma eq_false_iff (x y : Q) :
  Utils.eq EPSILON x y = false <-> (x - y <= - EPSILON \/ EPSILON <= x - y)%Q.
Proof.
  destruct (Utils.eq EPSILON x y) eqn:E.
  - apply eq_iff in E. split; [discriminate|]. lra.
  - split; [intros _|reflexivity].
    destruct (Qlt_le_dec (- EPSILON) (x - y)) as [H1|H1]; [|lra].
    destruct (Qlt_le_dec (x - y) EPSILON) as [H2|H2]; [|lra].
    assert (Utils.eq EPSILON x y = true) by (apply eq_iff; lra).
    congruence.
Qed.

Lemma eq_sym (x y : Q) : Utils.eq EPSILON x y = Utils.eq EPSILON y x.
Proof.
  destruct (Utils.eq EPSILON y x) eqn:E.
  - apply eq_iff in E. apply eq_iff. lra.
  - apply eq_false_iff in E. apply eq_false_iff. lra.
Qed.
End ToleranceFacts.

(** ** Lexicographic order of node-index tuples *)

Lemma tuple_lt_irrefl (s : list Z) : Cmp.tuple_lt s s = false.
Proof.
  induction s as [|x s IH]; simpl; [reflexivity|].
  now rewrite Z.eqb_refl.
Qed.

Lemma tuple_lt_asym (s t : list Z) :
  Cmp.tuple_lt s t = true -> Cmp.tuple_lt t s = false.
Proof.
  revert t. induction s as [|x s IH]; intros [|y t]; simpl; try easy.
  destruct (Z.eqb_spec x y) as [->|Hne].
  - rewrite Z.eqb_refl. apply IH.
  - destruct (Z.eqb_spec y x) as [->|_]; [congruence|].
    intros Hlt. apply Z.ltb_lt in Hlt. apply Z.ltb_ge. lia.
Qed.

Lemma tuple_lt_trans (s t u : list Z) :
  Cmp.tuple_lt s t = true -> Cmp.tuple_lt t u = true -> Cmp.tuple_lt s u = true.
Proof.
  revert t u. induction s as [|x s IH]; intros [|y t] [|z u]; simpl; try easy.
  destruct (Z.eqb_spec x y) as [->|Hxy].
  - destruct (Z.eqb_spec y z) as [->|Hyz]; [apply IH|easy].
  - intros Hlt. apply Z.ltb_lt in Hlt.
    destruct (Z.eqb_spec y z) as [->|Hyz].
    + intros _. destruct (Z.eqb_spec x z); [congruence|]. now apply Z.ltb_lt.
    + intros Hlt'. apply Z.ltb_lt in Hlt'.
      destruct (Z.eqb_spec x z); [lia|]. apply Z.ltb_lt. lia.
Qed.

Lemma tuple_lt_total (s t : list Z) :
  Cmp.tuple_lt s t = false -> Cmp.tuple_lt t s = false -> s = t.
Proof.
  revert t. induction s as [|x s IH]; intros [|y t]; simpl; try easy.
  destruct (Z.eqb_spec x y) as [->|Hxy].
  - rewrite Z.eqb_refl. intros H1 H2. f_equal. now apply IH.
  - destruct (Z.eqb_spec y x) as [->|_]; [congruence|].
    intros H1 H2. apply Z.ltb_ge in H1, H2. lia.
Qed.

(** ** Equality of arrays and of networks *)

Lemma all_eq_refl (xs : list Q) : all_eq xs xs = true.
Proof.
  induction xs as [|x xs IH]; simpl; [reflexivity|].
  rewrite IH, andb_true_r. apply Qeq_bool_iff. reflexivity.
Qed.

Lemma all_eq_sym (xs ys : list Q) : all_eq xs ys = all_eq ys xs.
Proof.
  revert ys. induction xs as [|x xs IH]; intros [|y ys]; simpl; try reflexivity.
  rewrite IH. f_equal. apply Qeq_bool_comm.
Qed.

Lemma array_equal_refl (a : ndarray) : array_equal a a = true.
Proof.
  unfold array_equal. rewrite all_eq_refl, andb_true_r.
  now apply bool_decide_eq_true.
Qed.

Lemma array_equal_sym (a b : ndarray) : array_equal a b = array_equal b a.
Proof.
  unfold array_equal. rewrite all_eq_sym. f_equal.
  apply bool_decide_ext. split; congruence.
Qed.

Lemma all_eq_trans (xs ys zs : list Q) :
  all_eq xs ys = true -> all_eq ys zs = true -> all_eq xs zs = true.
Proof.
  revert ys zs. induction xs as [|x xs IH]; intros [|y ys] [|z zs]; simpl;
    try easy.
  rewrite !andb_true_iff. intros [Hxy Hxs] [Hyz Hys]. split.
  - revert Hxy Hyz. apply Qeq_bool_trans.
  - now apply (IH ys).
Qed.

Lemma array_equal_trans (a b c : ndarray) :
  array_equal a b = true -> array_equal b c = true -> array_equal a c = true.
Proof.
  unfold array_equal. rewrite !andb_true_iff, !bool_decide_eq_true.
  intros [Hs Hd] [Hs' Hd']. split; [congruence|].
  now apply (all_eq_trans _ (data b)).
Qed.

Lemma network_eq_sym (m n : Network.Network) :
  Network.__eq__ m (Network.ONetwork n) = Network.__eq__ n (Network.ONetwork m).
Proof.
  simpl.
  rewrite (array_equal_sym (Network.tpm m)).
  rewrite (array_equal_sym (Network.connectivity_matrix m)).
  now rewrite (array_equal_sym (Network.perturb_vector m)).
Qed.

(** ** System irreducibility analyses *)

Section SIAFacts.
Import BigPhi.

Lemma general_eq_network (a b : SystemIrreducibilityAnalysis) :
  Cmp.general_eq a b Cmp.unorderable_unless_eq = Spec.comparable a b.
Proof.
  unfold Cmp.general_eq, Spec.comparable. simpl. apply andb_true_r.
Qed.

Lemma comparable_sym (a b : SystemIrreducibilityAnalysis) :
  Spec.comparable a b = Spec.comparable b a.
Proof. apply network_eq_sym. Qed.

(** The operator computes the order of the two [order_by] lists. *)
Lemma lt_comparable (a b : SystemIrreducibilityAnalysis) :
  Spec.comparable a b = true ->
  Cmp.__lt__ a b = Ok (Spec.sia_lt_exact a b).
Proof.
  intros Hc. unfold Cmp.__lt__. rewrite general_eq_network, Hc. simpl.
  unfold Spec.sia_lt_exact.
  destruct (Qeq_bool (phi a) (phi b)); [|reflexivity].
  destruct (Nat.eqb_spec (Subsystem.__len__ (subsystem a))
              (Subsystem.__len__ (subsystem b))) as [He|Hne].
  - rewrite He, Z.eqb_refl. case_bool_decide as Ht; [|reflexivity].
    rewrite Ht. now rewrite tuple_lt_irrefl.
  - destruct (Z.eqb_spec (Z.of_nat (Subsystem.__len__ (subsystem a)))
                (Z.of_nat (Subsystem.__len__ (subsystem b)))) as [He|_]; [lia|].
    f_equal.
    destruct (Nat.ltb_spec (Subsystem.__len__ (subsystem a))
                (Subsystem.__len__ (subsystem b)));
      [apply Z.ltb_lt|apply Z.ltb_ge]; lia.
Qed.

Lemma lt_not_comparable (a b : SystemIrreducibilityAnalysis) :
  Spec.comparable a b = false ->
  Cmp.__lt__ a b = Err ComparisonError.
Proof.
  intros Hc. unfold Cmp.__lt__. now rewrite general_eq_network, Hc.
Qed.
End SIAFacts.

Lemma comparable_trans (a b c : BigPhi.SystemIrreducibilityAnalysis) :
  Spec.comparable a b = true -> Spec.comparable b c = true ->
  Spec.comparable a c = true.
Proof.
  unfold Spec.comparable. simpl. rewrite !andb_true_iff.
  intros [[H1 H2] H3] [[H4 H5] H6].
  repeat split; eapply array_equal_trans; eassumption.
Qed.

(** C1 fails on the code.  The analysis of the whole network with
    [phi = 0.0] and the analysis of one node with [phi = 1e-12] belong to
    one network, and their [phi] values are closer than the tolerance, so
    that the claim ranks the larger subsystem greater.  The operators
    compare the [order_by] lists, which hold [phi] as it is: the analysis
    with the smaller [phi] is the smaller one, whatever the sizes. *)
Theorem sia_order_ignores_tolerance :
  Spec.comparable Sample.sia_whole Sample.sia_part = true
  /\ Utils.eq Sample.epsilon (BigPhi.phi Sample.sia_whole)
       (BigPhi.phi Sample.sia_part) = true
  /\ Subsystem.__len__ (BigPhi.subsystem Sample.sia_part)
     < Subsystem.__len__ (BigPhi.subsystem Sample.sia_whole)
  /\ Spec.sia_lt Sample.epsilon Sample.sia_part Sample.sia_whole = true
  /\ Spec.sia_lt Sample.epsilon Sample.sia_whole Sample.sia_part = false
  /\ BigPhi.order_by Sample.sia_whole
     = [Cmp.KFloat 0; Cmp.KInt 2; Cmp.KTuple [0; 1]%Z]
  /\ BigPhi.order_by Sample.sia_part
     = [Cmp.KFloat (1 # 1000000000000); Cmp.KInt 1; Cmp.KTuple [1]%Z]
  /\ Cmp.__lt__ Sample.sia_whole Sample.sia_part = Ok true
  /\ Cmp.__gt__ Sample.sia_whole Sample.sia_part = Ok false
  /\ Cmp.__lt__ Sample.sia_part Sample.sia_whole = Ok false.
Proof.
  assert (Hc : Spec.comparable Sample.sia_whole Sample.sia_part = true)
    by (vm_compute; reflexivity).
  assert (Hc' : Spec.comparable Sample.sia_part Sample.sia_whole = true)
    by (vm_compute; reflexivity).
  unfold Cmp.__gt__. rewrite !lt_comparable by assumption.
  vm_compute. repeat split. lia.
Qed.

(** C3.  An analysis (its [phi] is a non-negative real) is truthy exactly
    when [phi] is strictly greater than zero and not within the tolerance of
    zero, that is when [phi] reaches the tolerance; with a tolerance that
    lies above [1e-12] and not above [0.05], [phi = 0] and [phi = 1e-12] are
    falsy and [phi = 0.05] is truthy. *)
Theorem sia_truthiness (EPSILON : Q) :
  (1 # 1000000000000 < EPSILON)%Q ->
  (EPSILON <= 1 # 20)%Q ->
  (forall s, (0 <= BigPhi.phi s)%Q ->
     (BigPhi.__bool__ EPSILON s = true <->
      (0 < BigPhi.phi s)%Q /\ Utils.eq EPSILON (BigPhi.phi s) 0 = false)
     /\ (BigPhi.__bool__ EPSILON s = true <-> (EPSILON <= BigPhi.phi s)%Q))
  /\ (forall s, (BigPhi.phi s == 0)%Q -> BigPhi.__bool__ EPSILON s = false)
  /\ (forall s, (BigPhi.phi s == 1 # 1000000000000)%Q ->
        BigPhi.__bool__ EPSILON s = false)
  /\ (forall s, (BigPhi.phi s == 1 # 20)%Q -> BigPhi.__bool__ EPSILON s = true).
Proof.
  intros Hlo Hhi. unfold BigPhi.__bool__.
  split; [|split; [|split]].
  - intros s Hnn. rewrite negb_true_iff. split; split.
    + intros Hne. split; [|exact Hne]. apply eq_false_iff in Hne. lra.
    + now intros [_ Hne].
    + intros Hne. apply eq_false_iff in Hne. lra.
    + intros Hge. apply eq_false_iff. lra.
  - intros s Hz. apply negb_false_iff, eq_iff. lra.
  - intros s Hz. apply negb_false_iff, eq_iff. lra.
  - intros s Hz. apply negb_true_iff, eq_false_iff. lra.
Qed.

Lemma sia_truthiness_witness :
  (1 # 1000000000000 < Sample.epsilon)%Q
  /\ (Sample.epsilon <= 1 # 20)%Q
  /\ (0 <= BigPhi.phi Sample.sia_irreducible)%Q
  /\ (BigPhi.__bool__ Sample.epsilon Sample.sia_irreducible = true <->
      (Sample.epsilon <= BigPhi.phi Sample.sia_irreducible)%Q).
Proof.
  assert (Hlo : (1 # 1000000000000 < Sample.epsilon)%Q) by reflexivity.
  assert (Hhi : (Sample.epsilon <= 1 # 20)%Q) by (unfold Qle; simpl; lia).
  assert (Hnn : (0 <= BigPhi.phi Sample.sia_irreducible)%Q)
    by (unfold Qle; simpl; lia).
  repeat (split; [assumption|]).
  exact (proj2 (proj1 (sia_truthiness Sample.epsilon Hlo Hhi) _ Hnn)).
Defined.

(** C6.  Ordering two analyses whose networks are not content-equal raises
    an error, for [<] and for [>]; two analyses whose networks are
    content-equal are ordered. *)
Theorem sia_order_guard (a b : BigPhi.SystemIrreducibilityAnalysis) :
  if Network.__eq__ (BigPhi.network a) (Network.ONetwork (BigPhi.network b))
  then Cmp.__lt__ a b = Ok (Spec.sia_lt_exact a b)
       /\ Cmp.__gt__ a b = Ok (Spec.sia_lt_exact b a)
  else Cmp.__lt__ a b = Err ComparisonError
       /\ Cmp.__gt__ a b = Err ComparisonError.
Proof.
  unfold Cmp.__gt__.
  pose proof (comparable_sym a b) as Hsym. unfold Spec.comparable in Hsym.
  destruct (Network.__eq__ _ _) eqn:Hc.
  - split; apply lt_comparable; unfold Spec.comparable; congruence.
  - split; apply lt_not_comparable; unfold Spec.comparable; congruence.
Qed.

(** ** Purviews *)

Section PurviewFacts.
Variable block_reducible : ndarray -> list nat -> list nat -> bool.

Local Abbreviation reducible := (Network.reducible block_reducible).
Local Abbreviation irreducible_purviews :=
  (Network.irreducible_purviews block_reducible).
Local Abbreviation reducible_over := (Spec.reducible_over block_reducible).
Local Abbreviation valid_direction := Spec.valid_direction.

Lemma reducible_valid cm direction mechanism purview :
  valid_direction direction = true ->
  reducible cm direction mechanism purview
  = Ok (reducible_over cm direction mechanism purview).
Proof.
  unfold Spec.valid_direction, Network.reducible, Spec.reducible_over.
  change (Constants.DIRECTIONS_at Constants.PAST) with "past"%string.
  change (Constants.DIRECTIONS_at Constants.FUTURE) with "future"%string.
  intros Hd. destruct (decide (direction = "past"%string)); [reflexivity|].
  destruct (decide (direction = "future"%string)); [reflexivity|].
  rewrite !bool_decide_eq_false_2 in Hd by assumption. discriminate.
Qed.

Lemma reducible_invalid cm direction mechanism purview :
  valid_direction direction = false ->
  reducible cm direction mechanism purview = Err UnboundLocalError.
Proof.
  unfold Spec.valid_direction, Network.reducible.
  change (Constants.DIRECTIONS_at Constants.PAST) with "past"%string.
  change (Constants.DIRECTIONS_at Constants.FUTURE) with "future"%string.
  intros Hd. apply orb_false_iff in Hd as [H1 H2].
  apply bool_decide_eq_false in H1, H2.
  destruct (decide (direction = "past"%string)); [contradiction|].
  destruct (decide (direction = "future"%string)); [contradiction|].
  reflexivity.
Qed.

Lemma irreducible_purviews_valid cm direction mechanism purviews :
  valid_direction direction = true ->
  irreducible_purviews cm direction mechanism purviews
  = Ok (List.filter (fun p => negb (reducible_over cm direction mechanism p))
                    purviews).
Proof.
  intros Hd. induction purviews as [|p ps IH]; simpl; [reflexivity|].
  rewrite reducible_valid by assumption. simpl. rewrite IH. simpl.
  now destruct (reducible_over cm direction mechanism p).
Qed.

Lemma irreducible_purviews_invalid cm direction mechanism purviews :
  valid_direction direction = false -> purviews <> [] ->
  irreducible_purviews cm direction mechanism purviews
  = Err UnboundLocalError.
Proof.
  intros Hd Hne. destruct purviews as [|p ps]; [contradiction|]. simpl.
  now rewrite reducible_invalid.
Qed.

Lemma filter_sublist {A} (f : A -> bool) (l : list A) :
  List.filter f l `sublist_of` l.
Proof.
  induction l as [|x l IH]; simpl; [constructor|].
  destruct (f x); now constructor.
Qed.
End PurviewFacts.

(** C10.  [irreducible_purviews] returns for each of the two directions, and
    whatever it returns is a subsequence of its input: the purviews of the
    input that are not reducible, in the order of the input, each as often
    as the input has it.  It raises only for a direction that is neither
    "past" nor "future" on a non-empty input. *)
Theorem irreducible_purviews_subsequence
    (block_reducible : ndarray -> list nat -> list nat -> bool)
    (cm : ndarray) (direction : string) (mechanism : list nat)
    (purviews : list Network.purview) :
  match Network.irreducible_purviews block_reducible cm direction mechanism
          purviews with
  | Ok kept =>
      kept `sublist_of` purviews
      /\ (forall p, In p kept -> In p purviews)
      /\ (Spec.valid_direction direction = true ->
          kept = List.filter
                   (fun p =>
                      negb (Spec.reducible_over block_reducible cm direction
                              mechanism p))
                   purviews)
  | Err _ => Spec.valid_direction direction = false /\ purviews <> []
  end.
Proof.
  destruct (Spec.valid_direction direction) eqn:Hd.
  - rewrite irreducible_purviews_valid by assumption.
    split; [apply filter_sublist|]. split; [|reflexivity].
    intros p Hp. now apply filter_In in Hp.
  - destruct purviews as [|p ps].
    + simpl. split; [constructor|]. split; [tauto|discriminate].
    + rewrite irreducible_purviews_invalid by easy. easy.
Qed.

(** ** The powerset *)

Lemma combinations_spec {A} (s : list A) (r : nat) (p : list A) :
  p ∈ Utils.combinations s r <-> p `sublist_of` s /\ length p = r.
Proof.
  revert r p. induction s as [|x s IH]; intros [|r] p; simpl.
  - rewrite list_elem_of_singleton, sublist_nil_r.
    split; [intros ->; auto|tauto].
  - rewrite elem_of_nil, sublist_nil_r.
    split; [tauto|intros [-> H]; discriminate].
  - rewrite list_elem_of_singleton. split.
    + intros ->. split; [apply sublist_nil_l|reflexivity].
    + intros [_ Hlen]. now destruct p.
  - rewrite elem_of_app, list_elem_of_fmap, sublist_cons_r.
    rewrite (IH (S r)). split.
    + intros [(q & -> & Hq)|[Hp Hlen]].
      * apply IH in Hq as [Hq Hlen]. simpl. split; [|congruence].
        right. exists q. auto.
      * tauto.
    + intros [[Hp|(q & -> & Hq)] Hlen].
      * right. tauto.
      * left. exists q. split; [reflexivity|]. apply IH.
        simpl in Hlen. split; [assumption|congruence].
Qed.

Lemma powerset_spec {A} (s p : list A) :
  In p (Utils.powerset s) <-> p `sublist_of` s.
Proof.
  unfold Utils.powerset. rewrite in_concat. split.
  - intros (l & Hl & Hp). apply in_map_iff in Hl as (r & <- & _).
    apply list_elem_of_In in Hp. now apply combinations_spec in Hp.
  - intros Hp. exists (Utils.combinations s (length p)). split.
    + apply in_map_iff. exists (length p). split; [reflexivity|].
      apply in_seq. apply sublist_length in Hp. lia.
    + apply list_elem_of_In. now apply combinations_spec.
Qed.

(** ** Construction *)

(** Expose the fields of a network that the setters have built. *)
Ltac network_fields :=
  cbv [Network.size Network.tpm Network.connectivity_matrix
       Network.perturb_vector Network.node_indices Network.node_labels
       Network.with_purview_cache Network.perturb_vector_setter
       Network.connectivity_matrix_setter Network.with_nodes
       Network.with_tpm Network.with_connectivity_matrix
       Network.with_perturb_vector
       Network._tpm Network._connectivity_matrix Network._perturb_vector
       Network._node_indices Network._node_labels Network.purview_cache
       Network._tpm_hash Network._cm_hash Network._pv_hash].

Section InitFacts.
Variable EPSILON : Q.
Variable hash_bytes : list Z -> Z.

Local Abbreviation __init__ := (Network.__init__ EPSILON hash_bytes).
Local Abbreviation np_hash := (Utils.np_hash hash_bytes).

(** What [__init__] builds when it does not raise. *)
Lemma init_inv tpm cm labels pv cache net :
  __init__ tpm cm labels pv cache = Ok net ->
  let t := Spec.canonical_tpm tpm in
  let N := Convert.last_dim t in
  let c := set_readonly
             (match cm with Some cm => array cm | None => ones [N; N] end) in
  let p := set_readonly
             (match pv with
              | Some pv => array pv
              | None => divide (ones [N]) 2
              end) in
  Validate.tpm EPSILON (array tpm) = Ok ()
  /\ Validate.tpm EPSILON t = Ok ()
  /\ Validate.connectivity_matrix N c = Ok ()
  /\ net = {| Network._tpm := t; Network._tpm_hash := np_hash t;
              Network._num_states := 2 ^ N;
              Network._node_indices := seq 0 N;
              Network._node_labels := labels;
              Network._connectivity_matrix := c;
              Network._cm_hash := np_hash c;
              Network._perturb_vector := p;
              Network._pv_hash := np_hash p;
              Network.purview_cache := default ∅ cache |}.
Proof.
  unfold Network.__init__, Network.tpm_setter. simpl.
  destruct (Validate.tpm EPSILON (array tpm)) as [[]|e] eqn:Hv;
    simpl; [|discriminate].
  unfold Network.validate_network. simpl.
  fold (Spec.canonical_tpm tpm).
  destruct (Validate.tpm EPSILON (Spec.canonical_tpm tpm)) as [[]|e] eqn:Hvt;
    simpl; [|discriminate].
  destruct (Validate.connectivity_matrix _ _) as [[]|e] eqn:Hc;
    simpl; [|discriminate].
  intros [= <-]. repeat split.
Qed.

(** The other direction: the validations are all that can fail. *)
Lemma init_ok tpm cm labels pv cache :
  let t := Spec.canonical_tpm tpm in
  let N := Convert.last_dim t in
  let c := set_readonly
             (match cm with Some cm => array cm | None => ones [N; N] end) in
  Validate.tpm EPSILON (array tpm) = Ok () ->
  Validate.tpm EPSILON t = Ok () ->
  Validate.connectivity_matrix N c = Ok () ->
  is_ok (__init__ tpm cm labels pv cache) = true.
Proof.
  simpl. intros Hv Hvt Hc.
  unfold Network.__init__, Network.tpm_setter. simpl. rewrite Hv. simpl.
  unfold Network.validate_network. network_fields.
  fold (Spec.canonical_tpm tpm). rewrite Hvt. simpl. now rewrite Hc.
Qed.
End InitFacts.

(** ** The purview cache *)

Section CacheFacts.
Variable block_reducible : ndarray -> list nat -> list nat -> bool.

Local Abbreviation _potential_purviews :=
  (Network._potential_purviews block_reducible).
Local Abbreviation cache_consistent :=
  (Spec.cache_consistent block_reducible).
Local Abbreviation run_queries := (Spec.run_queries block_reducible).

(** A call changes nothing but the cache. *)
Lemma potential_purviews_frame self direction mechanism :
  exists c, (_potential_purviews self direction mechanism).2
            = Network.with_purview_cache self c.
Proof.
  unfold Network._potential_purviews.
  destruct (Network.purview_cache self !! _).
  - exists (Network.purview_cache self). now destruct self.
  - destruct (Network.irreducible_purviews _ _ _ _ _); simpl; eauto.
    exists (Network.purview_cache self). now destruct self.
Qed.

Lemma run_queries_frame self queries :
  exists c, run_queries self queries = Network.with_purview_cache self c.
Proof.
  revert self. induction queries as [|[d m] qs IH]; intros self; simpl.
  - exists (Network.purview_cache self). now destruct self.
  - destruct (potential_purviews_frame self d m) as [c ->].
    destruct (IH (Network.with_purview_cache self c)) as [c' ->].
    now exists c'.
Qed.

(** On a consistent cache a call returns what [irreducible_purviews]
    computes, hit or miss. *)
Lemma potential_purviews_value self direction mechanism :
  cache_consistent self ->
  (_potential_purviews self direction mechanism).1
  = Network.irreducible_purviews block_reducible
      (Network.connectivity_matrix self) direction mechanism
      (Utils.powerset (Network.node_indices self)).
Proof.
  intros Hc. unfold Network._potential_purviews.
  destruct (Network.purview_cache self !! _) as [hit|] eqn:Hl.
  - simpl. symmetry. now apply Hc.
  - unfold Network.node_indices.
    now destruct (Network.irreducible_purviews _ _ _ _ _).
Qed.

Lemma potential_purviews_consistent self direction mechanism :
  cache_consistent self ->
  cache_consistent (_potential_purviews self direction mechanism).2.
Proof.
  intros Hc. unfold Network._potential_purviews.
  destruct (Network.purview_cache self !! _) as [hit|] eqn:Hl; [exact Hc|].
  destruct (Network.irreducible_purviews _ _ _ _ _) as [v|e] eqn:Hv;
    [|exact Hc].
  intros d m hit. unfold Network.with_purview_cache. simpl.
  destruct (decide ((direction, mechanism) = (d, m))) as [[= <- <-]|Hne].
  - rewrite lookup_insert_eq. intros [= <-]. exact Hv.
  - rewrite lookup_insert_ne by assumption. apply Hc.
Qed.

Lemma run_queries_consistent self queries :
  cache_consistent self -> cache_consistent (run_queries self queries).
Proof.
  revert self. induction queries as [|[d m] qs IH]; intros self Hc; simpl.
  - exact Hc.
  - apply IH. now apply potential_purviews_consistent.
Qed.

Lemma empty_cache_consistent self :
  Network.purview_cache self = ∅ -> cache_consistent self.
Proof. intros He d m hit. rewrite He, lookup_empty. discriminate. Qed.
End CacheFacts.

(** C4.  On a network as [__init__] builds it, and after any calls of
    [_potential_purviews], a call for the direction "past" or "future"
    returns exactly the purviews of the powerset of the node indices that
    are not block-reducible over the connectivity matrix, where the
    connections tested run from the mechanism to the purview for "future"
    and from the purview to the mechanism for "past". *)
Theorem potential_purviews_exact
    (EPSILON : Q) (hash_bytes : list Z -> Z)
    (block_reducible : ndarray -> list nat -> list nat -> bool)
    (tpm : ndarray) (cm : option ndarray) (labels : option (list string))
    (pv : option ndarray) (net : Network.Network)
    (queries : list (string * list nat)) (mechanism : list nat) :
  Network.__init__ EPSILON hash_bytes tpm cm labels pv None = Ok net ->
  let self := Spec.run_queries block_reducible net queries in
  let cm := Network.connectivity_matrix net in
  let all_purviews := Utils.powerset (Network.node_indices net) in
  (Network._potential_purviews block_reducible self "future" mechanism).1
  = Ok (List.filter (fun purview =>
                       negb (block_reducible cm mechanism purview))
                    all_purviews)
  /\ (Network._potential_purviews block_reducible self "past" mechanism).1
     = Ok (List.filter (fun purview =>
                          negb (block_reducible cm purview mechanism))
                       all_purviews)
  /\ (forall purview,
        In purview all_purviews <->
        purview `sublist_of` Network.node_indices net).
Proof.
  intros Hinit self cm' all_purviews.
  assert (Hc : Spec.cache_consistent block_reducible self).
  { apply run_queries_consistent, empty_cache_consistent.
    apply init_inv in Hinit as (_ & _ & _ & ->). reflexivity. }
  destruct (run_queries_frame block_reducible net queries) as [c Hself].
  fold self in Hself.
  assert (Hcm : Network.connectivity_matrix self = cm')
    by (rewrite Hself; reflexivity).
  assert (Hidx : Network.node_indices self = Network.node_indices net)
    by (rewrite Hself; reflexivity).
  rewrite !potential_purviews_value by assumption.
  rewrite Hcm, Hidx. fold all_purviews.
  rewrite !irreducible_purviews_valid by reflexivity.
  repeat split; try apply powerset_spec.
Qed.

(** C9.  [__eq__] returns [False] for every object that is not a [Network];
    for a [Network] it compares the three arrays; it never raises.  [__ne__]
    is the negation of [__eq__]. *)
Theorem network_eq_other_objects (self : Network.Network)
    (other : Network.object) :
  match other with
  | Network.ONetwork n =>
      Network.__eq__ self other
      = array_equal (Network.tpm self) (Network.tpm n)
        && array_equal (Network.connectivity_matrix self)
                       (Network.connectivity_matrix n)
        && array_equal (Network.perturb_vector self)
                       (Network.perturb_vector n)
  | _ => Network.__eq__ self other = false
  end
  /\ Network.__eq__ self other
     = Spec.is_network other && Network.__eq__ self other
  /\ Network.__ne__ self other = negb (Network.__eq__ self other).
Proof.
  unfold Network.__ne__. now destruct other.
Qed.

(** ** Node indices *)

Lemma insert_sorted_In (x z : Z) (l : list Z) :
  In z (Builtins.insert_sorted x l) <-> z = x \/ In z l.
Proof.
  induction l as [|y l IH]; simpl; [intuition congruence|].
  destruct (Z.ltb_spec x y); [simpl; intuition congruence|].
  destruct (Z.eqb_spec x y) as [->|Hne]; simpl; [intuition congruence|].
  rewrite IH. tauto.
Qed.

Lemma insert_sorted_HdRel (x y : Z) (l : list Z) :
  (y < x)%Z -> HdRel Z.lt y l -> HdRel Z.lt y (Builtins.insert_sorted x l).
Proof.
  intros Hyx Hl. destruct l as [|z l]; simpl; [now constructor|].
  destruct (Z.ltb_spec x z); [now constructor|].
  destruct (Z.eqb_spec x z); [assumption|].
  constructor. now inversion Hl.
Qed.

Lemma insert_sorted_Sorted (x : Z) (l : list Z) :
  Sorted Z.lt l -> Sorted Z.lt (Builtins.insert_sorted x l).
Proof.
  induction l as [|y l IH]; simpl; intros Hs.
  - repeat constructor.
  - destruct (Z.ltb_spec x y) as [Hlt|Hge].
    + constructor; [assumption|now constructor].
    + destruct (Z.eqb_spec x y) as [->|Hne]; [assumption|].
      inversion Hs as [|? ? Hl Hhd]; subst.
      constructor; [now apply IH|]. apply insert_sorted_HdRel; [lia|assumption].
Qed.

Lemma sorted_set_In (z : Z) (xs : list Z) :
  In z (Builtins.sorted_set xs) <-> In z xs.
Proof.
  induction xs as [|x xs IH]; simpl; [tauto|].
  rewrite insert_sorted_In, IH. intuition congruence.
Qed.

(** [sorted(set(xs))] is strictly ascending: sorted, and without
    duplicates. *)
Lemma sorted_set_ascending (xs : list Z) :
  StronglySorted Z.lt (Builtins.sorted_set xs).
Proof.
  apply Sorted_StronglySorted; [intros x y z; apply Z.lt_trans|].
  induction xs as [|x xs IH]; simpl; [constructor|].
  now apply insert_sorted_Sorted.
Qed.

Lemma map_result_all_ok {A B} (f : A -> result B) (xs : list A) :
  (forall x, In x xs -> is_ok (f x) = true) ->
  exists ys, map_result f xs = Ok ys /\ Forall2 (fun x y => f x = Ok y) xs ys.
Proof.
  induction xs as [|x xs IH]; intros Hok; simpl.
  - exists []. split; [reflexivity|constructor].
  - destruct (f x) as [y|e] eqn:Hx.
    + destruct IH as (ys & -> & Hys); [intros; apply Hok; now right|].
      exists (y :: ys). split; [reflexivity|]. now constructor.
    + specialize (Hok x (or_introl Logic.eq_refl)). rewrite Hx in Hok.
      discriminate.
Qed.

Lemma map_result_some_err {A B} (f : A -> result B) (xs : list A) :
  (exists x, In x xs /\ is_ok (f x) = false) -> raises (map_result f xs).
Proof.
  intros (x & Hin & Hx). induction xs as [|x' xs IH]; [contradiction|].
  simpl. destruct (f x') as [y|e] eqn:Hx'; [|now exists e].
  destruct Hin as [->|Hin]; [rewrite Hx' in Hx; discriminate|].
  destruct (IH Hin) as [e ->]. now exists e.
Qed.

Lemma labels2indices_lookup (self : Network.Network) (labels : list string) :
  labels <> [] ->
  Network.labels2indices self labels
  = map_result (fun label =>
                  match Spec.label_index self label with
                  | Some i => Ok i
                  | None =>
                      Err (match Network.node_labels self with
                           | Some _ => KeyError
                           | None => TypeError
                           end)
                  end) labels.
Proof.
  unfold Network.labels2indices, Spec.label_index.
  destruct (Network.node_labels self); [reflexivity|].
  now destruct labels.
Qed.

Lemma int_is_ok (n : Network.node) :
  is_ok (Network.int n)
  = match n with
    | Network.Label s => is_ok (Builtins.int_of_str s)
    | Network.Index _ => true
    end.
Proof. now destruct n. Qed.

(** C8 (amended).  For a non-empty input, [generate_node_indices] returns a
    deduplicated, ascending tuple of integers.  An input of labels alone is
    translated through the label-to-index map and fails on an unknown label;
    an input of indices alone is returned as such a tuple.  Any other input
    is converted element by element with [int]: it fails when some string
    in it is not an integer literal, and is accepted otherwise. *)
Theorem generate_node_indices_cases (self : Network.Network)
    (nodes : list Network.node) :
  nodes <> [] ->
  (forall r, Network.generate_node_indices self nodes = Ok r ->
             StronglySorted Z.lt r)
  /\ (forallb Network.is_str nodes = true ->
      ((forall n, In n nodes ->
                  is_Some (Spec.label_index self (Network.label_of n))) ->
       exists idx,
         Forall2 (fun n i =>
                    Spec.label_index self (Network.label_of n) = Some i)
                 nodes idx
         /\ Network.generate_node_indices self nodes
            = Ok (Builtins.sorted_set (map Z.of_nat idx)))
      /\ ((exists n, In n nodes
                     /\ Spec.label_index self (Network.label_of n) = None) ->
          raises (Network.generate_node_indices self nodes)))
  /\ (forall idx, nodes = map Network.Index idx ->
        Network.generate_node_indices self nodes
        = Ok (Builtins.sorted_set idx))
  /\ (forallb Network.is_str nodes = false ->
      ((forall s, In (Network.Label s) nodes ->
                  is_ok (Builtins.int_of_str s) = true) ->
       exists zs,
         Forall2 (fun n z => Network.int n = Ok z) nodes zs
         /\ Network.generate_node_indices self nodes
            = Ok (Builtins.sorted_set zs))
      /\ ((exists s, In (Network.Label s) nodes
                     /\ is_ok (Builtins.int_of_str s) = false) ->
          raises (Network.generate_node_indices self nodes))).
Proof.
  intros Hne.
  assert (Hlen : length nodes <> 0) by now destruct nodes.
  unfold Network.generate_node_indices.
  rewrite decide_False by assumption.
  split; [|split; [|split]].
  - intros r. destruct (forallb Network.is_str nodes).
    + destruct (Network.labels2indices _ _); simpl; [|discriminate].
      intros [= <-]. apply sorted_set_ascending.
    + destruct (map_result Network.int nodes); simpl; [|discriminate].
      intros [= <-]. apply sorted_set_ascending.
  - intros Hall. rewrite Hall.
    rewrite labels2indices_lookup by now destruct nodes.
    split.
    + intros Hknown.
      destruct (map_result_all_ok
                  (fun label =>
                     match Spec.label_index self label with
                     | Some i => Ok i
                     | None =>
                         Err (match Network.node_labels self with
                              | Some _ => KeyError
                              | None => TypeError
                              end)
                     end) (map Network.label_of nodes)) as (idx & -> & Hidx).
      { intros l Hl. apply in_map_iff in Hl as (n & <- & Hn).
        now destruct (Hknown n Hn) as [i ->]. }
      exists idx. split; [|reflexivity].
      apply Forall2_fmap_l in Hidx.
      eapply Forall2_impl; [exact Hidx|]. simpl. intros n i.
      now destruct (Spec.label_index self (Network.label_of n)) eqn:E;
        intros [= ->].
    + intros (n & Hn & Hnone).
      destruct (map_result_some_err
                  (fun label =>
                     match Spec.label_index self label with
                     | Some i => Ok i
                     | None =>
                         Err (match Network.node_labels self with
                              | Some _ => KeyError
                              | None => TypeError
                              end)
                     end) (map Network.label_of nodes)) as [e ->].
      { exists (Network.label_of n). split; [now apply in_map|].
        now rewrite Hnone. }
      now exists e.
  - intros idx ->.
    assert (Hstr : forallb Network.is_str (map Network.Index idx) = false)
      by now destruct idx.
    rewrite Hstr. clear. induction idx as [|i idx IH]; [reflexivity|].
    simpl in *. destruct (map_result Network.int (map Network.Index idx));
      simpl in *; [|discriminate]. now injection IH as ->.
  - intros Hmixed. rewrite Hmixed. split.
    + intros Hparse.
      destruct (map_result_all_ok Network.int nodes) as (zs & -> & Hzs).
      { intros n Hn. rewrite int_is_ok. destruct n; [now apply Hparse|easy]. }
      now exists zs.
    + intros (s & Hin & Hs).
      destruct (map_result_some_err Network.int nodes) as [e ->];
        [|now exists e].
      exists (Network.Label s). now split.
Qed.

Lemma generate_node_indices_witness :
  [Network.Index 1; Network.Index 0; Network.Index 1] <> []
  /\ Network.generate_node_indices Sample.net_labelled
       [Network.Index 1; Network.Index 0; Network.Index 1]
     = Ok (Builtins.sorted_set [1; 0; 1]%Z).
Proof.
  assert (Hne : [Network.Index 1; Network.Index 0; Network.Index 1] <> [])
    by discriminate.
  split; [exact Hne|].
  exact (proj1 (proj2 (proj2
           (generate_node_indices_cases Sample.net_labelled _ Hne)))
           [1; 0; 1]%Z Logic.eq_refl).
Defined.

(** C8 as stated fails: the input [["1", 0]] mixes a string with an index
    and is accepted. *)
Lemma generate_node_indices_mixed_accepted :
  In (Network.Label "1") [Network.Label "1"; Network.Index 0]
  /\ In (Network.Index 0) [Network.Label "1"; Network.Index 0]
  /\ Network.generate_node_indices Sample.net_labelled
       [Network.Label "1"; Network.Index 0]
     = Ok [0; 1]%Z.
Proof.
  split; [now left|]. split; [right; now left|]. vm_compute. reflexivity.
Qed.

(** ** Conversion to the canonical form *)

Lemma last_dim_app (sh : list nat) (n : nat) (b : buffer) (w : bool) :
  Convert.last_dim {| shape := sh ++ [n]; elements := b; writeable := w |}
  = n.
Proof. unfold Convert.last_dim. cbn [shape]. now rewrite last_snoc. Qed.

Lemma to_n_dimensional_array (a : ndarray) :
  Convert.to_n_dimensional (array a) = Convert.to_n_dimensional a.
Proof. reflexivity. Qed.

(** Converting an array that is already canonical changes nothing. *)
Lemma to_n_dimensional_canonical (a : ndarray) :
  shape a = repeat 2 (Convert.last_dim a) ++ [Convert.last_dim a] ->
  Convert.to_n_dimensional a = array a.
Proof.
  intros Hsh. unfold Convert.to_n_dimensional. now rewrite decide_True.
Qed.

Lemma canonical_shape (t : ndarray) :
  let N := Convert.last_dim (Spec.canonical_tpm t) in
  shape (Spec.canonical_tpm t) = repeat 2 N ++ [N].
Proof.
  unfold Spec.canonical_tpm.
  destruct (Utils.state_by_state (array t)).
  - unfold Convert.state_by_state2state_by_node, set_readonly.
    cbn [shape elements]. now rewrite last_dim_app.
  - unfold Convert.to_n_dimensional.
    destruct (decide _) as [Hsh|Hsh].
    + exact Hsh.
    + unfold set_readonly. cbn [shape elements]. now rewrite last_dim_app.
Qed.

(** The stored TPM is of [float64] when it comes from a state-by-state
    TPM, and of the element type of the input otherwise. *)
Lemma canonical_dtype (t : ndarray) :
  dtype_of (Spec.canonical_tpm t)
  = if Utils.state_by_state t then float64 else dtype_of t.
Proof.
  unfold Spec.canonical_tpm.
  change (Utils.state_by_state (array t)) with (Utils.state_by_state t).
  destruct (Utils.state_by_state t); [reflexivity|].
  unfold Convert.to_n_dimensional.
  destruct (decide _); [reflexivity|].
  unfold dtype_of, set_readonly, array. cbn [elements].
  now destruct (elements t).
Qed.

(** ** Hashing *)

(** The bytes of a [float64] depend on its value only. *)
Lemma float64_bytes_Qeq (x y : Q) :
  (x == y)%Q -> float64_bytes x = float64_bytes y.
Proof.
  intros H. unfold float64_bytes, float64_bits, float64_round.
  now rewrite (Qred_complete x y H).
Qed.

Lemma float64_bytes_all_eq (xs ys : list Q) :
  all_eq xs ys = true ->
  flat_map float64_bytes xs = flat_map float64_bytes ys.
Proof.
  revert ys. induction xs as [|x xs IH]; intros [|y ys];
    cbn [all_eq flat_map]; try easy.
  rewrite andb_true_iff, Qeq_bool_iff. intros [Hxy Hrest].
  now rewrite (float64_bytes_Qeq x y Hxy), (IH ys Hrest).
Qed.

(** The default perturbation vector. *)
Lemma elements_halves (n : nat) :
  elements (divide (ones [n]) 2) = Floats (repeat (1 # 2)%Q n).
Proof.
  unfold divide, ones, data. cbn [elements shape numel foldr]. f_equal.
  rewrite Nat.mul_1_r. induction n as [|n IH]; [reflexivity|].
  cbn [repeat map]. rewrite IH. f_equal.
Qed.

(** An array that equals the default perturbation vector has its bytes:
    no array of integers holds a half. *)
Lemma tobytes_halves (a : ndarray) (n : nat) :
  array_equal a (divide (ones [n]) 2) = true ->
  tobytes a = tobytes (divide (ones [n]) 2).
Proof.
  unfold array_equal. rewrite andb_true_iff. intros [_ Hd]. revert Hd.
  unfold tobytes, data. rewrite elements_halves.
  destruct (elements a) as [zs|xs]; [|apply float64_bytes_all_eq].
  destruct zs as [|z zs], n as [|n]; try discriminate; [reflexivity|].
  cbn [repeat map all_eq]. rewrite andb_true_iff, Qeq_bool_iff.
  intros [Hz _]. unfold Qeq, inject_Z in Hz. simpl in Hz. lia.
Qed.

(** C2 fails on the code.  The constructor stores every TPM in the
    N-dimensional state-by-node form, but an array keeps the element type
    that the route of the input gives it: a TPM is of [float64] when it
    comes from a state-by-state TPM and of the element type of the input
    otherwise, and a connectivity matrix is of the element type of the
    input when one is given and of [float64] by default.  The network built
    from the state-by-state TPM of the two-node copy network and the one
    built from its state-by-node TPM [[[0, 0], [1, 0], [0, 1], [1, 1]]],
    given as integers, store the same shape and the same values and are
    equal under [==]; their TPM hashes are digests of different bytes, and
    the hashes of the networks differ.  So do the hashes of the latter
    network and of the one built with the connectivity matrix
    [[[1, 1], [1, 1]]], given as integers, which are equal under [==]. *)
Theorem network_hash_differs_across_forms :
  (forall EPSILON hash_bytes tpm cm labels pv cache net,
     Network.__init__ EPSILON hash_bytes tpm cm labels pv cache = Ok net ->
     shape (Network.tpm net)
     = repeat 2 (Network.size net) ++ [Network.size net]
     /\ dtype_of (Network.tpm net)
        = (if Utils.state_by_state tpm then float64 else dtype_of tpm)
     /\ dtype_of (Network.connectivity_matrix net)
        = match cm with Some cm => dtype_of cm | None => float64 end
     /\ Network._tpm_hash net = hash_bytes (tobytes (Network.tpm net))
     /\ Network._cm_hash net
        = hash_bytes (tobytes (Network.connectivity_matrix net)))
  /\ Network.__init__ Sample.epsilon Sample.hash_bytes Sample.copy_tpm_sbs
       None None None None = Ok Sample.net_sbs
  /\ Network.__init__ Sample.epsilon Sample.hash_bytes Sample.copy_tpm_2d
       None None None None = Ok Sample.net
  /\ Network.tpm Sample.net_sbs
     = {| shape := [2; 2; 2];
          elements := Floats [0; 0;  0; 1;  1; 0;  1; 1]%Q;
          writeable := false |}
  /\ Network.tpm Sample.net
     = {| shape := [2; 2; 2];
          elements := Ints [0; 0;  0; 1;  1; 0;  1; 1]%Z;
          writeable := false |}
  /\ Network.__eq__ Sample.net_sbs (Network.ONetwork Sample.net) = true
  /\ tobytes (Network.tpm Sample.net_sbs) <> tobytes (Network.tpm Sample.net)
  /\ Network.__hash__ Sample.hash_tuple Sample.net_sbs
     <> Network.__hash__ Sample.hash_tuple Sample.net
  /\ Network.__init__ Sample.epsilon Sample.hash_bytes Sample.copy_tpm_2d
       (Some Sample.ones_ints) None None None = Ok Sample.net_cm_ints
  /\ Network.__eq__ Sample.net (Network.ONetwork Sample.net_cm_ints) = true
  /\ tobytes (Network.connectivity_matrix Sample.net)
     <> tobytes (Network.connectivity_matrix Sample.net_cm_ints)
  /\ Network.__hash__ Sample.hash_tuple Sample.net
     <> Network.__hash__ Sample.hash_tuple Sample.net_cm_ints.
Proof.
  split.
  - intros EPSILON hash_bytes tpm cm labels pv cache net H.
    apply init_inv in H as (_ & _ & _ & ->). network_fields.
    split; [apply canonical_shape|]. split; [apply canonical_dtype|].
    split; [now destruct cm|]. now split.
  - vm_compute. repeat split; discriminate.
Qed.

Lemma potential_purviews_exact_witness :
  Network.__init__ Sample.epsilon Sample.hash_bytes Sample.copy_tpm_2d
    None None None None = Ok Sample.net
  /\ (Network._potential_purviews Sample.block_reducible
        (Spec.run_queries Sample.block_reducible Sample.net
           [("past"%string, [0]); ("future"%string, [1])])
        "future" [0]).1
     = Ok (List.filter
             (fun purview =>
                negb (Sample.block_reducible
                        (Network.connectivity_matrix Sample.net) [0] purview))
             (Utils.powerset (Network.node_indices Sample.net))).
Proof.
  assert (H : Network.__init__ Sample.epsilon Sample.hash_bytes
                Sample.copy_tpm_2d None None None None = Ok Sample.net)
    by (vm_compute; reflexivity).
  split; [exact H|].
  exact (proj1 (potential_purviews_exact Sample.epsilon Sample.hash_bytes
                  Sample.block_reducible Sample.copy_tpm_2d None None None
                  Sample.net [("past"%string, [0]); ("future"%string, [1])]
                  [0] H)).
Defined.

(** ** Serialisation *)

(** Storing a stored array again changes nothing. *)
Lemma canonical_again (t : ndarray) :
  Spec.canonical_tpm (Spec.canonical_tpm t) = Spec.canonical_tpm t.
Proof.
  pose proof (canonical_shape t) as Hsh. cbv zeta in Hsh.
  unfold Spec.canonical_tpm at 1.
  assert (Hsq : Utils.state_by_state (array (Spec.canonical_tpm t)) = false).
  { unfold Utils.state_by_state. cbn [shape array]. rewrite Hsh.
    now destruct (Convert.last_dim _) as [|[|[|n]]]. }
  rewrite Hsq, to_n_dimensional_array.
  rewrite to_n_dimensional_canonical by exact Hsh.
  unfold Spec.canonical_tpm.
  now destruct (Utils.state_by_state (array t)).
Qed.

Section JsonFacts.
Variable EPSILON : Q.
Variable hash_bytes : list Z -> Z.

Local Abbreviation __init__ := (Network.__init__ EPSILON hash_bytes).
Local Abbreviation from_json := (Network.from_json EPSILON hash_bytes).

(** The network that the round trip rebuilds: the same TPM and
    connectivity matrix, the default perturbation vector, no labels, a
    fresh cache. *)
Lemma from_json_to_json_inv tpm cm labels pv cache net net' :
  __init__ tpm cm labels pv cache = Ok net ->
  from_json (Network.to_json net) = Ok net' ->
  let p := set_readonly (divide (ones [Network.size net]) 2) in
  net' = Network.with_perturb_vector
           (Network.with_purview_cache
              (Network.with_nodes net (Network.num_states net)
                 (Network.node_indices net) None) ∅)
           p (Utils.np_hash hash_bytes p).
Proof.
  intros H H'. unfold Network.from_json, Network.to_json in H'.
  cbn [Network.json_tpm Network.json_cm] in H'.
  apply init_inv in H' as (_ & _ & _ & ->).
  apply init_inv in H as (_ & _ & _ & ->).
  network_fields. cbn [Network.num_states Network._num_states].
  rewrite !canonical_again. reflexivity.
Qed.

Lemma from_json_to_json_ok tpm cm labels pv cache net :
  __init__ tpm cm labels pv cache = Ok net ->
  is_ok (from_json (Network.to_json net)) = true.
Proof.
  intros H. unfold Network.from_json, Network.to_json.
  cbn [Network.json_tpm Network.json_cm].
  apply init_inv in H as (_ & Hvt & Hc & ->). revert Hc. network_fields.
  intros Hc. apply init_ok; rewrite ?canonical_again; assumption.
Qed.
End JsonFacts.

(** C5 (amended).  For a network whose perturbation vector is the default
    one (every entry one half), built from a TPM in either form:
    reconstructing a network from the [tpm] and [cm] fields of [to_json()]
    succeeds, and the result is content-equal to the original and has its
    hash. *)
Theorem json_round_trip
    (EPSILON : Q) (hash_bytes : list Z -> Z)
    (hash_tuple : list Z -> Z)
    (tpm : ndarray) (cm pv : option ndarray) (labels : option (list string))
    (cache : option Network.PurviewCache) (net : Network.Network) :
  Network.__init__ EPSILON hash_bytes tpm cm labels pv cache = Ok net ->
  array_equal (Network.perturb_vector net)
              (divide (ones [Network.size net]) 2) = true ->
  exists net',
    Network.from_json EPSILON hash_bytes (Network.to_json net) = Ok net'
    /\ Network.__eq__ net (Network.ONetwork net') = true
    /\ Network.__eq__ net' (Network.ONetwork net) = true
    /\ Network.__hash__ hash_tuple net = Network.__hash__ hash_tuple net'.
Proof.
  intros H Hpv.
  pose proof (from_json_to_json_ok _ _ _ _ _ _ _ _ H) as Hok.
  destruct (Network.from_json _ _ _) as [net'|e] eqn:H'; [|discriminate].
  exists net'. split; [reflexivity|].
  pose proof (from_json_to_json_inv _ _ _ _ _ _ _ _ _ H H') as Hnet'.
  cbv zeta in Hnet'.
  assert (E : Network.__eq__ net (Network.ONetwork net') = true).
  { rewrite Hnet'. cbn [Network.__eq__]. network_fields.
    rewrite !array_equal_refl. exact Hpv. }
  split; [exact E|]. split; [now rewrite network_eq_sym|].
  assert (Hh : Network._pv_hash net
               = Utils.np_hash hash_bytes (Network.perturb_vector net))
    by (apply init_inv in H as (_ & _ & _ & ->); reflexivity).
  rewrite Hnet'. unfold Network.__hash__. network_fields.
  fold (Network._pv_hash net). rewrite Hh.
  unfold Utils.np_hash.
  change (tobytes (set_readonly ?a)) with (tobytes a).
  now rewrite (tobytes_halves _ _ Hpv).
Qed.

Lemma json_round_trip_witness :
  Network.__init__ Sample.epsilon Sample.hash_bytes Sample.copy_tpm_sbs
    None None None None = Ok Sample.net_sbs
  /\ array_equal (Network.perturb_vector Sample.net_sbs)
                 (divide (ones [Network.size Sample.net_sbs]) 2) = true
  /\ exists net',
       Network.from_json Sample.epsilon Sample.hash_bytes
         (Network.to_json Sample.net_sbs) = Ok net'
       /\ Network.__eq__ Sample.net_sbs (Network.ONetwork net') = true
       /\ Network.__eq__ net' (Network.ONetwork Sample.net_sbs) = true
       /\ Network.__hash__ Sample.hash_tuple Sample.net_sbs
          = Network.__hash__ Sample.hash_tuple net'.
Proof.
  assert (H : Network.__init__ Sample.epsilon Sample.hash_bytes
                Sample.copy_tpm_sbs None None None None = Ok Sample.net_sbs)
    by (vm_compute; reflexivity).
  assert (Hpv : array_equal (Network.perturb_vector Sample.net_sbs)
                  (divide (ones [Network.size Sample.net_sbs]) 2) = true)
    by (vm_compute; reflexivity).
  split; [exact H|]. split; [exact Hpv|].
  exact (json_round_trip Sample.epsilon Sample.hash_bytes
           Sample.hash_tuple Sample.copy_tpm_sbs None None None None
           Sample.net_sbs H Hpv).
Defined.

(** C5 as stated fails: a network with a perturbation vector of its own is
    reconstructed with the default one, and is not equal to the original. *)
Lemma json_round_trip_loses_perturb_vector :
  Network.__init__ Sample.epsilon Sample.hash_bytes Sample.copy_tpm_2d
    None None (Some Sample.biased) None = Ok Sample.net_biased
  /\ Network.from_json Sample.epsilon Sample.hash_bytes
       (Network.to_json Sample.net_biased) = Ok Sample.net
  /\ Network.__eq__ Sample.net_biased (Network.ONetwork Sample.net) = false.
Proof. vm_compute. repeat split. Qed.

(** ** Immutability *)

(** The three arrays of a network are read-only: assigning to an element
    of one of them in place is rejected. *)
Lemma network_arrays_read_only
    (EPSILON : Q) (hash_bytes : list Z -> Z)
    (tpm : ndarray) (cm : option ndarray) (labels : option (list string))
    (pv : option ndarray) (cache : option Network.PurviewCache)
    (net : Network.Network) (k : nat) (v : Q) :
  Network.__init__ EPSILON hash_bytes tpm cm labels pv cache = Ok net ->
  setitem (Network.tpm net) k v = Err ValueError
  /\ setitem (Network.connectivity_matrix net) k v = Err ValueError
  /\ setitem (Network.perturb_vector net) k v = Err ValueError.
Proof.
  intros H. apply init_inv in H as (_ & _ & _ & ->). repeat split.
Qed.

(** C7 fails on the code: assigning to the [tpm] property after
    construction is accepted, and replaces the content and the hash of the
    network. *)
Theorem tpm_setter_replaces_content :
  Network.tpm_setter Sample.epsilon Sample.hash_bytes Sample.net
    Sample.flip_tpm_2d = Ok Sample.net_reassigned
  /\ Network.__eq__ Sample.net (Network.ONetwork Sample.net_reassigned) = false
  /\ Network.__hash__ Sample.hash_tuple Sample.net
     <> Network.__hash__ Sample.hash_tuple Sample.net_reassigned.
Proof. vm_compute. repeat split. discriminate. Qed.

(** * Further properties of the code *)

(** ** [irreducible_purviews] *)

Section PurviewAlgebra.
Variable block_reducible : ndarray -> list nat -> list nat -> bool.

Local Abbreviation irreducible_purviews :=
  (Network.irreducible_purviews block_reducible).

(** X1.  Cause and effect are dual: a purview [p] is kept for the mechanism
    [m] in the direction "past" exactly when [m] is kept as a purview for
    the mechanism [p] in the direction "future". *)
Theorem irreducible_purviews_duality (cm : ndarray) (m p : list nat) :
  irreducible_purviews cm "past" m [p] = Ok [p]
  <-> irreducible_purviews cm "future" p [m] = Ok [m].
Proof.
  rewrite !irreducible_purviews_valid by reflexivity.
  assert (Hpast : Spec.reducible_over block_reducible cm "past" m p
                  = block_reducible cm p m) by reflexivity.
  assert (Hfuture : Spec.reducible_over block_reducible cm "future" p m
                    = block_reducible cm p m) by reflexivity.
  cbn [List.filter]. rewrite Hpast, Hfuture.
  destruct (block_reducible cm p m); simpl; split; intros H;
    first [reflexivity | discriminate H].
Qed.

Lemma irreducible_purviews_app cm direction mechanism ps qs :
  irreducible_purviews cm direction mechanism (ps ++ qs)
  = match irreducible_purviews cm direction mechanism ps with
    | Ok kept =>
        match irreducible_purviews cm direction mechanism qs with
        | Ok kept' => Ok (kept ++ kept')
        | Err e => Err e
        end
    | Err e => Err e
    end.
Proof.
  induction ps as [|p ps IH]; simpl.
  - now destruct (irreducible_purviews cm direction mechanism qs).
  - destruct (Network.reducible _ _ _ _ _) as [r|e]; simpl; [|reflexivity].
    rewrite IH.
    destruct (irreducible_purviews cm direction mechanism ps); simpl;
      [|reflexivity].
    destruct (irreducible_purviews cm direction mechanism qs); simpl;
      [|reflexivity].
    now destruct r.
Qed.

(** X2.  Filtering composes: the purviews kept from a concatenation are
    those kept from the first list followed by those kept from the second
    (the first error, if any, is the one raised), and filtering a result
    again keeps all of it. *)
Theorem irreducible_purviews_compose (cm : ndarray) (direction : string)
    (mechanism : list nat) (ps qs : list Network.purview) :
  irreducible_purviews cm direction mechanism (ps ++ qs)
  = match irreducible_purviews cm direction mechanism ps with
    | Ok kept =>
        match irreducible_purviews cm direction mechanism qs with
        | Ok kept' => Ok (kept ++ kept')
        | Err e => Err e
        end
    | Err e => Err e
    end
  /\ match irreducible_purviews cm direction mechanism ps with
     | Ok kept => irreducible_purviews cm direction mechanism kept = Ok kept
     | Err _ => True
     end.
Proof.
  split; [apply irreducible_purviews_app|].
  induction ps as [|p ps IH]; simpl; [reflexivity|].
  destruct (Network.reducible _ _ _ _ _) as [r|e] eqn:Hr; simpl; [|exact I].
  destruct (irreducible_purviews cm direction mechanism ps) as [kept|e];
    simpl; [|exact I].
  destruct r; simpl; [exact IH|]. now rewrite Hr, IH.
Qed.
End PurviewAlgebra.

(** ** Node labels *)

Lemma map_result_Forall2 {A B} (f : A -> result B) (xs : list A)
    (ys : list B) :
  Forall2 (fun x y => f x = Ok y) xs ys -> map_result f xs = Ok ys.
Proof.
  induction 1 as [|x y xs ys Hxy _ IH]; simpl; [reflexivity|].
  now rewrite Hxy, IH.
Qed.

Lemma map_result_ok_inv {A B} (f : A -> result B) (xs : list A)
    (ys : list B) :
  map_result f xs = Ok ys -> Forall2 (fun x y => f x = Ok y) xs ys.
Proof.
  revert ys. induction xs as [|x xs IH]; simpl; intros ys.
  - intros [= <-]. constructor.
  - destruct (f x) as [y|e] eqn:Hx; simpl; [|discriminate].
    destruct (map_result f xs) as [ys'|e]; simpl; [|discriminate].
    intros [= <-]. constructor; [assumption|now apply IH].
Qed.

(** A key that a list of pairs does not mention keeps its entry. *)
Lemma dict_update_absent (l : list (string * nat)) (m : gmap string nat)
    (k : string) :
  k ∉ l.*1 ->
  foldl (fun m kv => <[kv.1 := kv.2]> m) m l !! k = m !! k.
Proof.
  revert m. induction l as [|[k' v'] l IH]; intros m Hk; simpl; [reflexivity|].
  simpl in Hk. apply not_elem_of_cons in Hk as [Hne Hk].
  rewrite IH by assumption. now apply lookup_insert_ne.
Qed.

(** The last pair for a key is the one that stays. *)
Lemma dict_update_last (l1 l2 : list (string * nat)) (m : gmap string nat)
    (k : string) (v : nat) :
  k ∉ l2.*1 ->
  foldl (fun m kv => <[kv.1 := kv.2]> m) m (l1 ++ (k, v) :: l2) !! k = Some v.
Proof.
  intros Hk. rewrite foldl_app. simpl.
  rewrite dict_update_absent by assumption. apply lookup_insert_eq.
Qed.

Lemma dict_zip_last (l1 l2 : list string) (l : string) (values : list nat)
    (i : nat) :
  l ∉ l2 -> values !! length l1 = Some i ->
  Network.dict_zip (l1 ++ l :: l2) values !! l = Some i.
Proof.
  intros Hl Hi. unfold Network.dict_zip.
  rewrite <- (take_drop_middle values (length l1) i Hi).
  assert (Hlen : length l1 = length (take (length l1) values)).
  { rewrite length_take. apply lookup_lt_Some in Hi. lia. }
  rewrite (zip_with_app pair l1 (l :: l2) (take (length l1) values)
             (i :: drop (S (length l1)) values) Hlen).
  simpl.
  apply dict_update_last.
  intros Hin. apply Hl. apply list_elem_of_fmap in Hin as ([k v] & -> & Hin).
  apply elem_of_zip_l in Hin. exact Hin.
Qed.

Lemma dict_zip_unknown (labels : list string) (values : list nat)
    (l : string) :
  l ∉ take (length values) labels ->
  Network.dict_zip labels values !! l = None.
Proof.
  intros Hl. unfold Network.dict_zip.
  rewrite dict_update_absent; [apply lookup_empty|].
  intros Hin. apply Hl.
  apply list_elem_of_fmap in Hin as ([k v] & -> & Hin).
  apply list_elem_of_lookup in Hin as [j Hj].
  unfold zip in Hj.
  apply lookup_zip_with_Some in Hj as (x & y & [= <- <-] & Hx & Hy).
  apply list_elem_of_lookup. exists j.
  rewrite lookup_take_lt; [exact Hx|]. now apply lookup_lt_Some in Hy.
Qed.

(** Every entry comes from a pair of the list or was there before. *)
Lemma dict_update_source (l : list (string * nat)) (m : gmap string nat)
    (k : string) (v : nat) :
  foldl (fun m kv => <[kv.1 := kv.2]> m) m l !! k = Some v ->
  (k, v) ∈ l \/ m !! k = Some v.
Proof.
  revert m. induction l as [|[k' v'] l IH]; intros m; simpl; [now right|].
  intros H. apply IH in H as [H|H]; [left; now right|].
  destruct (decide (k' = k)) as [->|Hne].
  - rewrite lookup_insert_eq in H. injection H as ->. left. now left.
  - rewrite lookup_insert_ne in H by assumption. now right.
Qed.

(** X3.  The labels of a network, when they are distinct and as many as
    its nodes, translate to its node indices, in order. *)
Theorem labels2indices_own_labels (self : Network.Network)
    (labels : list string) :
  Network.node_labels self = Some labels ->
  NoDup labels ->
  length labels = length (Network.node_indices self) ->
  Network.labels2indices self labels = Ok (Network.node_indices self).
Proof.
  intros Hlabels Hnodup Hlen. unfold Network.labels2indices.
  rewrite Hlabels. apply map_result_Forall2.
  apply Forall2_same_length_lookup. split; [exact Hlen|].
  intros j l i Hl Hi.
  pose proof (take_drop_middle labels j l Hl) as Hsplit.
  rewrite <- Hsplit in Hnodup |- *.
  apply NoDup_app in Hnodup as (_ & _ & Hnodup).
  apply NoDup_cons in Hnodup as [Hnotin _].
  assert (Hj : length (take j labels) = j).
  { rewrite length_take. apply lookup_lt_Some in Hl. lia. }
  rewrite dict_zip_last with (i := i); [reflexivity|exact Hnotin|].
  now rewrite Hj.
Qed.

Lemma labels2indices_own_labels_witness :
  Network.node_labels Sample.net_labelled = Some ["A"; "B"]%string
  /\ Network.labels2indices Sample.net_labelled ["A"; "B"]%string
     = Ok (Network.node_indices Sample.net_labelled).
Proof.
  assert (H1 : Network.node_labels Sample.net_labelled
               = Some ["A"; "B"]%string) by (vm_compute; reflexivity).
  assert (H2 : NoDup ["A"; "B"]%string).
  { apply NoDup_cons. split; [|apply NoDup_singleton].
    intros Hin. apply list_elem_of_In in Hin. simpl in Hin.
    destruct Hin as [Hin|[]]. discriminate Hin. }
  assert (H3 : length ["A"; "B"]%string
               = length (Network.node_indices Sample.net_labelled))
    by (vm_compute; reflexivity).
  exact (conj H1 (labels2indices_own_labels Sample.net_labelled
                    ["A"; "B"]%string H1 H2 H3)).
Defined.

(** X4.  What [labels2indices] returns has one index per label, and every
    index is a node index of the network; a label that occurs more than
    once among the network's labels resolves to the index at its last
    position; the call raises [KeyError] when some label is not among the
    network's first [N] labels ([N] the number of node indices), and
    [TypeError] when the network has no labels. *)
Theorem labels2indices_lookup_rules (self : Network.Network)
    (labels : list string) :
  (forall indices,
     Network.labels2indices self labels = Ok indices ->
     length indices = length labels
     /\ Forall (fun i => In i (Network.node_indices self)) indices)
  /\ (forall l1 l l2 i,
        Network.node_labels self = Some (l1 ++ l :: l2) ->
        l ∉ l2 ->
        Network.node_indices self !! length l1 = Some i ->
        Network.labels2indices self [l] = Ok [i])
  /\ (forall own l,
        Network.node_labels self = Some own ->
        In l labels ->
        l ∉ take (length (Network.node_indices self)) own ->
        Network.labels2indices self labels = Err KeyError)
  /\ (Network.node_labels self = None ->
      Network.labels2indices self labels = Err TypeError).
Proof.
  split; [|split; [|split]].
  - intros indices. unfold Network.labels2indices.
    destruct (Network.node_labels self) as [own|]; [|discriminate].
    intros H. apply map_result_ok_inv in H. split.
    + symmetry. eapply Forall2_length, H.
    + induction H as [|l i ls idx Hl _ IH]; constructor; [|exact IH].
      destruct (Network.dict_zip own (Network.node_indices self) !! l)
        as [i'|] eqn:Hi; [|discriminate].
      injection Hl as <-. unfold Network.dict_zip in Hi.
      apply dict_update_source in Hi as [Hi|Hi];
        [|rewrite lookup_empty in Hi; discriminate].
      apply list_elem_of_In. eapply elem_of_zip_r, Hi.
  - intros l1 l l2 i Hown Hl Hi. unfold Network.labels2indices.
    rewrite Hown. simpl. now rewrite (dict_zip_last l1 l2 l _ i).
  - intros own l Hown Hin Hl. unfold Network.labels2indices. rewrite Hown.
    induction labels as [|l' labels IH]; [contradiction|]. simpl.
    destruct (decide (l' = l)) as [->|Hne].
    + now rewrite dict_zip_unknown.
    + destruct Hin as [Heq|Hin]; [contradiction|].
      destruct (Network.dict_zip own (Network.node_indices self) !! l');
        simpl; [|reflexivity].
      now rewrite (IH Hin).
  - intros Hnone. unfold Network.labels2indices. now rewrite Hnone.
Qed.

(** ** Canonical index tuples *)

(** A strictly ascending list is determined by its elements. *)
Lemma ascending_unique (l1 l2 : list Z) :
  StronglySorted Z.lt l1 -> StronglySorted Z.lt l2 ->
  (forall z, In z l1 <-> In z l2) -> l1 = l2.
Proof.
  intros H1. revert l2.
  induction H1 as [|x l1 H1 IH Hx]; intros l2 H2 Hmem.
  - destruct l2 as [|y l2]; [reflexivity|].
    destruct (proj2 (Hmem y) (or_introl Logic.eq_refl)).
  - destruct H2 as [|y l2 H2 Hy].
    { destruct (proj1 (Hmem x) (or_introl Logic.eq_refl)). }
    rewrite Forall_forall in Hx, Hy.
    assert (Hxy : x = y).
    { destruct (proj1 (Hmem x) (or_introl Logic.eq_refl)) as [Heq|Hin];
        [now symmetry|].
      destruct (proj2 (Hmem y) (or_introl Logic.eq_refl)) as [Heq|Hin'];
        [exact Heq|].
      apply list_elem_of_In in Hin, Hin'.
      specialize (Hx y Hin'). specialize (Hy x Hin). lia. }
    subst y. f_equal. apply IH; [exact H2|].
    intros z. split; intros Hz.
    + destruct (proj1 (Hmem z) (or_intror Hz)) as [Heq|Hin]; [|exact Hin].
      apply list_elem_of_In in Hz. specialize (Hx z Hz). lia.
    + destruct (proj2 (Hmem z) (or_intror Hz)) as [Heq|Hin]; [|exact Hin].
      apply list_elem_of_In in Hz. specialize (Hy z Hz). lia.
Qed.

Lemma sorted_set_ext (xs ys : list Z) :
  (forall z, In z xs <-> In z ys) ->
  Builtins.sorted_set xs = Builtins.sorted_set ys.
Proof.
  intros Hmem.
  apply ascending_unique; try apply sorted_set_ascending.
  intros z. rewrite !sorted_set_In. apply Hmem.
Qed.

Lemma sorted_set_ascending_id (r : list Z) :
  StronglySorted Z.lt r -> Builtins.sorted_set r = r.
Proof.
  intros Hr. apply ascending_unique;
    [apply sorted_set_ascending|exact Hr|intros z; apply sorted_set_In].
Qed.

Lemma generate_node_indices_indices (self : Network.Network) (xs : list Z) :
  Network.generate_node_indices self (map Network.Index xs)
  = Ok (Builtins.sorted_set xs).
Proof.
  unfold Network.generate_node_indices.
  destruct xs as [|x xs]; [reflexivity|].
  rewrite decide_False by discriminate.
  assert (Hint : forall l, map_result Network.int (map Network.Index l) = Ok l).
  { induction l as [|z l IH]; simpl; [reflexivity|]. now rewrite IH. }
  assert (Hstr : forallb Network.is_str (map Network.Index (x :: xs)) = false)
    by reflexivity.
  now rewrite Hstr, Hint.
Qed.

(** X5.  For integer indices [generate_node_indices] depends only on the
    set of its input: inputs with the same elements, in whatever order and
    however often, give one result; the result holds exactly the elements
    of the input, strictly ascending; and a result that is given back as
    input is returned as it is.  An empty input gives the empty tuple. *)
Theorem generate_node_indices_set_semantics (self : Network.Network)
    (xs ys : list Z) :
  (forall z, In z xs <-> In z ys) ->
  Network.generate_node_indices self (map Network.Index xs)
  = Network.generate_node_indices self (map Network.Index ys)
  /\ exists r,
       Network.generate_node_indices self (map Network.Index xs) = Ok r
       /\ (forall z, In z r <-> In z xs)
       /\ StronglySorted Z.lt r
       /\ Network.generate_node_indices self (map Network.Index r) = Ok r
       /\ (xs = [] -> r = []).
Proof.
  intros Hmem. rewrite !generate_node_indices_indices. split.
  - f_equal. now apply sorted_set_ext.
  - exists (Builtins.sorted_set xs). split; [reflexivity|].
    split; [intros z; apply sorted_set_In|].
    split; [apply sorted_set_ascending|].
    split; [|now intros ->].
    rewrite generate_node_indices_indices. f_equal.
    apply sorted_set_ascending_id, sorted_set_ascending.
Qed.

Lemma generate_node_indices_set_semantics_witness :
  (forall z, In z [2; 0; 2]%Z <-> In z [0; 2]%Z)
  /\ Network.generate_node_indices Sample.net
       (map Network.Index [2; 0; 2]%Z)
     = Network.generate_node_indices Sample.net (map Network.Index [0; 2]%Z).
Proof.
  assert (H : forall z, In z [2; 0; 2]%Z <-> In z [0; 2]%Z)
    by (intros z; simpl; tauto).
  exact (conj H (proj1 (generate_node_indices_set_semantics Sample.net
                          [2; 0; 2]%Z [0; 2]%Z H))).
Defined.

(** X6.  Labels and indices agree: when the labels translate, the result
    for the labels is the result for the indices they translate to. *)
Theorem generate_node_indices_labels_as_indices (self : Network.Network)
    (labels : list string) (indices : list nat) :
  Network.labels2indices self labels = Ok indices ->
  Network.generate_node_indices self (map Network.Label labels)
  = Network.generate_node_indices self
      (map Network.Index (map Z.of_nat indices)).
Proof.
  intros Hl. rewrite generate_node_indices_indices.
  unfold Network.generate_node_indices.
  destruct labels as [|l labels].
  - unfold Network.labels2indices in Hl.
    destruct (Network.node_labels self); [|discriminate].
    simpl in Hl. injection Hl as <-. reflexivity.
  - rewrite decide_False by discriminate.
    assert (Hstr : forallb Network.is_str (map Network.Label (l :: labels))
                   = true).
    { apply forallb_forall. intros n Hn.
      apply in_map_iff in Hn as (s & <- & _). reflexivity. }
    assert (Hof : map Network.label_of (map Network.Label (l :: labels))
                  = l :: labels).
    { rewrite map_map. apply map_id. }
    rewrite Hstr, Hof, Hl. reflexivity.
Qed.

Lemma generate_node_indices_labels_as_indices_witness :
  Network.labels2indices Sample.net_labelled ["B"; "A"]%string = Ok [1; 0]
  /\ Network.generate_node_indices Sample.net_labelled
       (map Network.Label ["B"; "A"]%string)
     = Network.generate_node_indices Sample.net_labelled
         (map Network.Index (map Z.of_nat [1; 0])).
Proof.
  assert (H : Network.labels2indices Sample.net_labelled ["B"; "A"]%string
              = Ok [1; 0]) by (vm_compute; reflexivity).
  exact (conj H (generate_node_indices_labels_as_indices Sample.net_labelled
                   ["B"; "A"]%string [1; 0] H)).
Defined.

(** ** Equality of networks *)

(** X7.  [==] on networks is an equivalence relation, and it looks at the
    three arrays only: a network whose labels, node bookkeeping or purview
    cache differ is still equal. *)
Theorem network_eq_equivalence (a b c : Network.Network) :
  Network.__eq__ a (Network.ONetwork a) = true
  /\ Network.__eq__ a (Network.ONetwork b)
     = Network.__eq__ b (Network.ONetwork a)
  /\ (Network.__eq__ a (Network.ONetwork b) = true ->
      Network.__eq__ b (Network.ONetwork c) = true ->
      Network.__eq__ a (Network.ONetwork c) = true)
  /\ (forall num_states indices labels cache,
        Network.__eq__ a
          (Network.ONetwork
             (Network.with_purview_cache
                (Network.with_nodes a num_states indices labels) cache))
        = true).
Proof.
  split; [|split; [|split]].
  - simpl. now rewrite !array_equal_refl.
  - apply network_eq_sym.
  - simpl. rewrite !andb_true_iff.
    intros [[H1 H2] H3] [[H4 H5] H6].
    repeat split; eapply array_equal_trans; eassumption.
  - intros. simpl. now rewrite !array_equal_refl.
Qed.

(** ** What the constructor establishes *)

(** X8.  A network that [__init__] returns has [2 ^ size] states, the node
    indices [0, ..., size - 1] and the labels it was given; its three arrays
    are read-only and its stored hashes are the hashes of these arrays; a
    connectivity matrix or perturbation vector that is given is stored with
    its shape and elements, and the defaults are the all-ones [size x size]
    matrix and the vector of [size] halves. *)
Theorem init_establishes
    (EPSILON : Q) (hash_bytes : list Z -> Z)
    (tpm : ndarray) (cm pv : option ndarray) (labels : option (list string))
    (cache : option Network.PurviewCache) (net : Network.Network) :
  Network.__init__ EPSILON hash_bytes tpm cm labels pv cache = Ok net ->
  let N := Network.size net in
  Network.num_states net = 2 ^ N
  /\ Network.node_indices net = seq 0 N
  /\ Network.node_labels net = labels
  /\ Usage.coherent hash_bytes net
  /\ match cm with
     | Some cm =>
         shape (Network.connectivity_matrix net) = shape cm
         /\ data (Network.connectivity_matrix net) = data cm
     | None =>
         shape (Network.connectivity_matrix net) = [N; N]
         /\ data (Network.connectivity_matrix net) = repeat 1%Q (N * N)
     end
  /\ match pv with
     | Some pv =>
         shape (Network.perturb_vector net) = shape pv
         /\ data (Network.perturb_vector net) = data pv
     | None =>
         shape (Network.perturb_vector net) = [N]
         /\ data (Network.perturb_vector net) = repeat (1 # 2)%Q N
     end.
Proof.
  intros H. apply init_inv in H as (_ & _ & _ & ->).
  unfold Usage.coherent. network_fields.
  cbn [Network.num_states Network._num_states].
  repeat split.
  - destruct cm; split; try reflexivity.
    unfold data, set_readonly, ones. cbn [elements numel foldr].
    now rewrite Nat.mul_1_r.
  - destruct pv; split; try reflexivity.
    unfold data, set_readonly. cbn [elements].
    now rewrite elements_halves.
Qed.

Lemma init_establishes_witness :
  Network.__init__ Sample.epsilon Sample.hash_bytes Sample.copy_tpm_2d
    None None (Some Sample.biased) None = Ok Sample.net_biased
  /\ Network.num_states Sample.net_biased
     = 2 ^ Network.size Sample.net_biased
  /\ Network.node_indices Sample.net_biased
     = seq 0 (Network.size Sample.net_biased)
  /\ Usage.coherent Sample.hash_bytes Sample.net_biased.
Proof.
  assert (H : Network.__init__ Sample.epsilon Sample.hash_bytes
                Sample.copy_tpm_2d None None (Some Sample.biased) None
              = Ok Sample.net_biased) by (vm_compute; reflexivity).
  pose proof (init_establishes Sample.epsilon Sample.hash_bytes
                Sample.copy_tpm_2d None (Some Sample.biased) None None
                Sample.net_biased H) as (Hn & Hi & _ & Hc & _).
  exact (conj H (conj Hn (conj Hi Hc))).
Defined.

(** ** Networks in use *)

Section UsageFacts.
Variable EPSILON : Q.
Variable hash_bytes : list Z -> Z.
Variable block_reducible : ndarray -> list nat -> list nat -> bool.

Local Abbreviation step := (Usage.step EPSILON hash_bytes block_reducible).
Local Abbreviation run := (Usage.run EPSILON hash_bytes block_reducible).
Local Abbreviation coherent := (Usage.coherent hash_bytes).

Lemma step_coherent self op : coherent self -> coherent (step self op).
Proof.
  intros Hc. destruct op as [tpm|cm|pv|direction mechanism]; simpl.
  - unfold Network.tpm_setter.
    destruct (Validate.tpm EPSILON (array tpm)); simpl; [|exact Hc].
    destruct Hc as (_ & H2 & H3 & _ & H5 & H6). now repeat split.
  - destruct Hc as (H1 & _ & H3 & H4 & _ & H6). now repeat split.
  - destruct Hc as (H1 & H2 & _ & H4 & H5 & _). now repeat split.
  - destruct (potential_purviews_frame block_reducible self direction
                mechanism) as [c ->].
    exact Hc.
Qed.

Lemma run_coherent self ops : coherent self -> coherent (run self ops).
Proof.
  revert self. induction ops as [|op ops IH]; intros self Hc; simpl;
    [exact Hc|].
  apply IH. now apply step_coherent.
Qed.

Lemma step_nodes self op :
  Network.num_states (step self op) = Network.num_states self
  /\ Network.node_indices (step self op) = Network.node_indices self
  /\ Network.node_labels (step self op) = Network.node_labels self.
Proof.
  destruct op as [tpm|cm|pv|direction mechanism]; simpl.
  - unfold Network.tpm_setter.
    now destruct (Validate.tpm EPSILON (array tpm)).
  - easy.
  - easy.
  - now destruct (potential_purviews_frame block_reducible self direction
                    mechanism) as [c ->].
Qed.

Lemma step_cache self op key hit :
  Network.purview_cache self !! key = Some hit ->
  Network.purview_cache (step self op) !! key = Some hit.
Proof.
  intros Hk. destruct op as [tpm|cm|pv|direction mechanism]; simpl.
  - unfold Network.tpm_setter.
    now destruct (Validate.tpm EPSILON (array tpm)).
  - exact Hk.
  - exact Hk.
  - unfold Network._potential_purviews.
    destruct (Network.purview_cache self !! (direction, mechanism))
      as [v|] eqn:Hl; [exact Hk|].
    destruct (Network.irreducible_purviews _ _ _ _ _); [|exact Hk].
    simpl. rewrite lookup_insert_ne; [exact Hk|]. congruence.
Qed.

Lemma run_cache self ops key hit :
  Network.purview_cache self !! key = Some hit ->
  Network.purview_cache (run self ops) !! key = Some hit.
Proof.
  revert self. induction ops as [|op ops IH]; intros self Hk; simpl;
    [exact Hk|].
  apply IH. now apply step_cache.
Qed.

Lemma run_nodes self ops :
  Network.num_states (run self ops) = Network.num_states self
  /\ Network.node_indices (run self ops) = Network.node_indices self
  /\ Network.node_labels (run self ops) = Network.node_labels self.
Proof.
  revert self. induction ops as [|op ops IH]; intros self; simpl; [easy|].
  destruct (IH (step self op)) as (-> & -> & ->). apply step_nodes.
Qed.

(** The hash of a coherent network is never stale: it is the hash of the
    digests of the bytes that its arrays hold. *)
Lemma coherent_hash (hash_tuple : list Z -> Z) (a : Network.Network) :
  coherent a ->
  Network.__hash__ hash_tuple a
  = hash_tuple [hash_bytes (tobytes (Network.tpm a));
                hash_bytes (tobytes (Network.connectivity_matrix a));
                hash_bytes (tobytes (Network.perturb_vector a))].
Proof.
  intros (_ & _ & _ & Ha1 & Ha2 & Ha3).
  unfold Network.__hash__. now rewrite Ha1, Ha2, Ha3.
Qed.
End UsageFacts.

(** X9.  Whatever a user does with a network after construction (assign
    to [tpm], [connectivity_matrix] or [perturb_vector], call
    [_potential_purviews]), its three arrays stay read-only, so that
    assigning to an element in place is rejected, and its stored hashes
    stay the hashes of its arrays: the hash of a network in use is the hash
    of the digests of the bytes that its three arrays hold, so that two
    networks in use whose arrays hold the same bytes have the same hash. *)
Theorem networks_in_use_stay_coherent
    (EPSILON : Q) (hash_bytes : list Z -> Z)
    (hash_tuple : list Z -> Z)
    (block_reducible : ndarray -> list nat -> list nat -> bool)
    (tpm1 tpm2 : ndarray) (cm1 cm2 pv1 pv2 : option ndarray)
    (l1 l2 : option (list string)) (c1 c2 : option Network.PurviewCache)
    (net1 net2 : Network.Network) (ops1 ops2 : list Usage.operation) :
  Network.__init__ EPSILON hash_bytes tpm1 cm1 l1 pv1 c1 = Ok net1 ->
  Network.__init__ EPSILON hash_bytes tpm2 cm2 l2 pv2 c2 = Ok net2 ->
  let a := Usage.run EPSILON hash_bytes block_reducible net1 ops1 in
  let b := Usage.run EPSILON hash_bytes block_reducible net2 ops2 in
  Usage.coherent hash_bytes a
  /\ (forall k v,
        setitem (Network.tpm a) k v = Err ValueError
        /\ setitem (Network.connectivity_matrix a) k v = Err ValueError
        /\ setitem (Network.perturb_vector a) k v = Err ValueError)
  /\ Network.__hash__ hash_tuple a
     = hash_tuple [hash_bytes (tobytes (Network.tpm a));
                   hash_bytes (tobytes (Network.connectivity_matrix a));
                   hash_bytes (tobytes (Network.perturb_vector a))]
  /\ (tobytes (Network.tpm a) = tobytes (Network.tpm b) ->
      tobytes (Network.connectivity_matrix a)
      = tobytes (Network.connectivity_matrix b) ->
      tobytes (Network.perturb_vector a)
      = tobytes (Network.perturb_vector b) ->
      Network.__hash__ hash_tuple a = Network.__hash__ hash_tuple b).
Proof.
  intros H1 H2 a b.
  assert (Ha : Usage.coherent hash_bytes a).
  { apply run_coherent. apply init_inv in H1 as (_ & _ & _ & ->).
    now repeat split. }
  assert (Hb : Usage.coherent hash_bytes b).
  { apply run_coherent. apply init_inv in H2 as (_ & _ & _ & ->).
    now repeat split. }
  split; [exact Ha|]. split; [|split].
  - intros k v. destruct Ha as (W1 & W2 & W3 & _).
    unfold setitem. now rewrite W1, W2, W3.
  - exact (coherent_hash hash_bytes hash_tuple a Ha).
  - intros Ht Hc Hp.
    rewrite (coherent_hash hash_bytes hash_tuple a Ha).
    rewrite (coherent_hash hash_bytes hash_tuple b Hb).
    now rewrite Ht, Hc, Hp.
Qed.

Lemma networks_in_use_stay_coherent_witness :
  Network.__init__ Sample.epsilon Sample.hash_bytes Sample.copy_tpm_2d
    None None None None = Ok Sample.net
  /\ Network.__init__ Sample.epsilon Sample.hash_bytes Sample.copy_tpm_sbs
       None None None None = Ok Sample.net_sbs
  /\ Usage.coherent Sample.hash_bytes
       (Usage.run Sample.epsilon Sample.hash_bytes Sample.block_reducible
          Sample.net
          [Usage.SetTpm Sample.flip_tpm_2d;
           Usage.SetPerturbVector (Some Sample.biased);
           Usage.PotentialPurviews "past" [0]]).
Proof.
  assert (H1 : Network.__init__ Sample.epsilon Sample.hash_bytes
                 Sample.copy_tpm_2d None None None None = Ok Sample.net)
    by (vm_compute; reflexivity).
  assert (H2 : Network.__init__ Sample.epsilon Sample.hash_bytes
                 Sample.copy_tpm_sbs None None None None = Ok Sample.net_sbs)
    by (vm_compute; reflexivity).
  exact (conj H1 (conj H2
           (proj1 (networks_in_use_stay_coherent Sample.epsilon
                     Sample.hash_bytes Sample.hash_tuple
                     Sample.block_reducible
                     Sample.copy_tpm_2d Sample.copy_tpm_sbs
                     None None None None None None None None
                     Sample.net Sample.net_sbs
                     [Usage.SetTpm Sample.flip_tpm_2d;
                      Usage.SetPerturbVector (Some Sample.biased);
                      Usage.PotentialPurviews "past" [0]]
                     [Usage.SetConnectivityMatrix None] H1 H2)))).
Defined.

(** X10.  The node bookkeeping is fixed at construction: whatever is done
    with the network afterwards, also an assignment of a TPM of another
    size, [num_states], [node_indices] and [node_labels] stay what
    [__init__] made them. *)
Theorem node_bookkeeping_is_fixed
    (EPSILON : Q) (hash_bytes : list Z -> Z)
    (block_reducible : ndarray -> list nat -> list nat -> bool)
    (tpm : ndarray) (cm pv : option ndarray) (labels : option (list string))
    (cache : option Network.PurviewCache) (net : Network.Network)
    (ops : list Usage.operation) :
  Network.__init__ EPSILON hash_bytes tpm cm labels pv cache = Ok net ->
  let self := Usage.run EPSILON hash_bytes block_reducible net ops in
  Network.num_states self = 2 ^ Network.size net
  /\ Network.node_indices self = seq 0 (Network.size net)
  /\ Network.node_labels self = labels.
Proof.
  intros H self.
  destruct (run_nodes EPSILON hash_bytes block_reducible net ops)
    as (Hn & Hi & Hl).
  fold self in Hn, Hi, Hl. rewrite Hn, Hi, Hl.
  apply init_inv in H as (_ & _ & _ & ->). now repeat split.
Qed.

Lemma node_bookkeeping_is_fixed_witness :
  Network.__init__ Sample.epsilon Sample.hash_bytes Sample.copy_tpm_2d
    None (Some ["A"; "B"]%string) None None = Ok Sample.net_labelled
  /\ Network.node_labels
       (Usage.run Sample.epsilon Sample.hash_bytes Sample.block_reducible
          Sample.net_labelled [Usage.SetTpm Sample.copy_tpm_sbs])
     = Some ["A"; "B"]%string.
Proof.
  assert (H : Network.__init__ Sample.epsilon Sample.hash_bytes
                Sample.copy_tpm_2d None (Some ["A"; "B"]%string) None None
              = Ok Sample.net_labelled) by (vm_compute; reflexivity).
  exact (conj H
           (proj2 (proj2
              (node_bookkeeping_is_fixed Sample.epsilon Sample.hash_bytes
                 Sample.block_reducible Sample.copy_tpm_2d None None
                 (Some ["A"; "B"]%string) None Sample.net_labelled
                 [Usage.SetTpm Sample.copy_tpm_sbs] H)))).
Defined.

(** X11.  The purview cache only grows: an answer of [_potential_purviews]
    is returned again for the same direction and mechanism after whatever
    is done with the network in between, also after the connectivity matrix
    has been assigned anew. *)
Theorem potential_purviews_answer_is_kept
    (EPSILON : Q) (hash_bytes : list Z -> Z)
    (block_reducible : ndarray -> list nat -> list nat -> bool)
    (self : Network.Network) (direction : string) (mechanism : list nat)
    (answer : list Network.purview) (ops : list Usage.operation) :
  (Network._potential_purviews block_reducible self direction mechanism).1
  = Ok answer ->
  let after :=
    Usage.run EPSILON hash_bytes block_reducible
      (Network._potential_purviews block_reducible self direction
         mechanism).2
      ops in
  Network._potential_purviews block_reducible after direction mechanism
  = (Ok answer, after).
Proof.
  intros Hfirst after.
  assert (Hstored :
    Network.purview_cache
      (Network._potential_purviews block_reducible self direction
         mechanism).2
    !! (direction, mechanism) = Some answer).
  { revert Hfirst. unfold Network._potential_purviews.
    destruct (Network.purview_cache self !! (direction, mechanism))
      as [hit|] eqn:Hl; simpl.
    - intros [= <-]. exact Hl.
    - destruct (Network.irreducible_purviews _ _ _ _ _); simpl;
        [|discriminate].
      intros [= <-]. apply lookup_insert_eq. }
  apply (run_cache EPSILON hash_bytes block_reducible _ ops) in Hstored.
  fold after in Hstored. unfold Network._potential_purviews.
  now rewrite Hstored.
Qed.

Lemma potential_purviews_answer_is_kept_witness :
  (Network._potential_purviews Sample.block_reducible Sample.net
     "past" [0]).1 = Ok [[0]; [1]; [0; 1]]
  /\ (Network._potential_purviews Sample.block_reducible
        (Usage.run Sample.epsilon Sample.hash_bytes Sample.block_reducible
           (Network._potential_purviews Sample.block_reducible Sample.net
              "past" [0]).2
           [Usage.SetConnectivityMatrix None;
            Usage.PotentialPurviews "future" [1]])
        "past" [0]).1
     = Ok [[0]; [1]; [0; 1]].
Proof.
  assert (H : (Network._potential_purviews Sample.block_reducible Sample.net
                 "past" [0]).1 = Ok [[0]; [1]; [0; 1]])
    by (vm_compute; reflexivity).
  exact (conj H
           (f_equal fst
              (potential_purviews_answer_is_kept Sample.epsilon
                 Sample.hash_bytes Sample.block_reducible Sample.net
                 "past" [0] [[0]; [1]; [0; 1]]
                 [Usage.SetConnectivityMatrix None;
                  Usage.PotentialPurviews "future" [1]] H))).
Defined.

(** ** Serialisation once more *)

(** X12.  Reloading is stable: for every network that [__init__] returns,
    whatever its perturbation vector, reconstructing from [to_json()]
    succeeds; the reloaded network serialises to the same dictionary, has
    no labels and the default perturbation vector, and reloading it again
    returns it unchanged. *)
Theorem json_reload_is_stable
    (EPSILON : Q) (hash_bytes : list Z -> Z)
    (tpm : ndarray) (cm pv : option ndarray) (labels : option (list string))
    (cache : option Network.PurviewCache) (net : Network.Network) :
  Network.__init__ EPSILON hash_bytes tpm cm labels pv cache = Ok net ->
  exists reloaded,
    Network.from_json EPSILON hash_bytes (Network.to_json net) = Ok reloaded
    /\ Network.to_json reloaded = Network.to_json net
    /\ Network.node_labels reloaded = None
    /\ data (Network.perturb_vector reloaded)
       = repeat (1 # 2)%Q (Network.size net)
    /\ Network.from_json EPSILON hash_bytes (Network.to_json reloaded)
       = Ok reloaded.
Proof.
  intros H.
  pose proof (from_json_to_json_ok _ _ _ _ _ _ _ _ H) as Hok.
  destruct (Network.from_json _ _ _) as [reloaded|e] eqn:H'; [|discriminate].
  exists reloaded. split; [reflexivity|].
  pose proof (from_json_to_json_inv _ _ _ _ _ _ _ _ _ H H') as Hr.
  cbv zeta in Hr.
  assert (Hjson : Network.to_json reloaded = Network.to_json net)
    by (rewrite Hr; reflexivity).
  split; [exact Hjson|]. split; [rewrite Hr; reflexivity|]. split.
  - rewrite Hr. cbn. rewrite Nat.mul_1_r.
    generalize (Network.size net). intros n.
    induction n as [|n IH]; [reflexivity|].
    cbn [repeat map]. rewrite IH. reflexivity.
  - rewrite Hjson. exact H'.
Qed.

Lemma json_reload_is_stable_witness :
  Network.__init__ Sample.epsilon Sample.hash_bytes Sample.copy_tpm_2d
    None None (Some Sample.biased) None = Ok Sample.net_biased
  /\ exists reloaded,
       Network.from_json Sample.epsilon Sample.hash_bytes
         (Network.to_json Sample.net_biased) = Ok reloaded
       /\ Network.to_json reloaded = Network.to_json Sample.net_biased
       /\ Network.node_labels reloaded = None
       /\ data (Network.perturb_vector reloaded)
          = repeat (1 # 2)%Q (Network.size Sample.net_biased)
       /\ Network.from_json Sample.epsilon Sample.hash_bytes
            (Network.to_json reloaded) = Ok reloaded.
Proof.
  assert (H : Network.__init__ Sample.epsilon Sample.hash_bytes
                Sample.copy_tpm_2d None None (Some Sample.biased) None
              = Ok Sample.net_biased) by (vm_compute; reflexivity).
  exact (conj H
           (json_reload_is_stable Sample.epsilon Sample.hash_bytes
              Sample.copy_tpm_2d None (Some Sample.biased) None None
              Sample.net_biased H)).
Defined.

(** ** Arrays written with a stride of three *)

Import PhiStructure.

Lemma selects_at (r pos k j : nat) :
  r < 3 -> j < 3 -> pos = j + 3 * k -> selects r 3 pos = (j =? r).
Proof.
  intros Hr Hj ->. unfold selects.
  pose proof (Nat.div_mod_eq (j + 3 * k - r) 3) as Hdm.
  pose proof (Nat.mod_upper_bound (j + 3 * k - r) 3) as Hub.
  destruct (Nat.leb_spec r (j + 3 * k)) as [Hle|Hlt];
    destruct (Nat.eqb_spec ((j + 3 * k - r) mod 3) 0) as [Hm|Hm];
    destruct (Nat.eqb_spec j r) as [Hjr|Hjr];
    cbn [andb]; try reflexivity; exfalso; lia.
Qed.

Lemma length_stacked (triples : list (cell * cell * cell)) :
  length (stacked triples) = length triples * 3.
Proof.
  induction triples as [|t ts IH]; [reflexivity|].
  change (stacked (t :: ts)) with (t.1.1 :: t.1.2 :: t.2 :: stacked ts).
  cbn [length]. rewrite IH. reflexivity.
Qed.

Lemma empty_stacked (n : nat) :
  empty (n * 3) = stacked (repeat (Uninit, Uninit, Uninit) n).
Proof.
  induction n as [|n IH]; [reflexivity|].
  unfold empty in *. cbn [Nat.mul Nat.add repeat]. rewrite IH. reflexivity.
Qed.

Lemma assign_stacked (r : nat) (triples : list (cell * cell * cell)) :
  r < 3 ->
  forall k pos src,
    pos = 3 * k ->
    length triples <= length src ->
    assign r 3 pos (stacked triples) src
    = stacked (zip_with (put r) triples src).
Proof.
  intros Hr. induction triples as [|[[a b] c] ts IH];
    intros k pos src Hpos Hlen; [reflexivity|].
  destruct src as [|v src]; [cbn [length] in Hlen; lia|].
  cbn [length] in Hlen.
  unfold stacked in *. cbn [flat_map app zip_with fst snd assign].
  rewrite (selects_at r pos k 0) by lia.
  destruct r as [|[|[|r]]]; [| | |lia]; cbn [Nat.eqb put fst snd].
  - rewrite (selects_at 0 (S pos) k 1), (selects_at 0 (S (S pos)) k 2) by lia.
    cbn [Nat.eqb]. rewrite (IH (S k)) by lia. reflexivity.
  - rewrite (selects_at 1 (S pos) k 1) by lia. cbn [Nat.eqb].
    rewrite (selects_at 1 (S (S pos)) k 2) by lia.
    cbn [Nat.eqb]. rewrite (IH (S k)) by lia. reflexivity.
  - rewrite (selects_at 2 (S pos) k 1), (selects_at 2 (S (S pos)) k 2) by lia.
    cbn [Nat.eqb]. rewrite (IH (S k)) by lia. reflexivity.
Qed.

Lemma slice_length_stacked (r n : nat) :
  r < 3 -> slice_length r 3 (n * 3) = n.
Proof.
  intros Hr. unfold slice_length. induction n as [|n IH]; [reflexivity|].
  replace (S n * 3) with (n * 3 + 3) by lia.
  rewrite seq_app, List.filter_app, length_app, IH.
  cbn [seq List.filter Nat.add].
  rewrite (selects_at r (n * 3) n 0), (selects_at r (S (n * 3)) n 1),
    (selects_at r (S (S (n * 3))) n 2) by lia.
  destruct r as [|[|[|r]]]; [| | |lia]; cbn; lia.
Qed.

(** An array assignment to a slot of every triple. *)
Lemma setitem_slice_stacked (r : nat) (triples : list (cell * cell * cell))
    (src : list cell) :
  r < 3 -> length src = length triples ->
  setitem_slice r 3 (stacked triples) src
  = Ok (stacked (zip_with (put r) triples src)).
Proof.
  intros Hr Hlen. unfold setitem_slice.
  rewrite length_stacked, slice_length_stacked by exact Hr.
  rewrite decide_True by exact Hlen.
  rewrite (assign_stacked r triples Hr 0 0 src) by lia. reflexivity.
Qed.

Lemma zip_with_repeat (r : nat) (triples : list (cell * cell * cell))
    (v : cell) (m : nat) :
  length triples <= m ->
  zip_with (put r) triples (repeat v m) = map (fun t => put r t v) triples.
Proof.
  revert m. induction triples as [|t ts IH]; intros m Hm; [reflexivity|].
  destruct m as [|m]; [cbn [length] in Hm; lia|].
  cbn [repeat zip_with map length] in *. rewrite IH by lia. reflexivity.
Qed.

(** A scalar assignment to a slot of every triple. *)
Lemma setitem_slice_scalar_stacked (r : nat)
    (triples : list (cell * cell * cell)) (v : cell) :
  r < 3 ->
  setitem_slice_scalar r 3 (stacked triples) v
  = stacked (map (fun t => put r t v) triples).
Proof.
  intros Hr. unfold setitem_slice_scalar.
  rewrite (assign_stacked r triples Hr 0 0)
    by (rewrite ?repeat_length, ?length_stacked; lia).
  rewrite zip_with_repeat by (rewrite length_stacked; lia). reflexivity.
Qed.

Lemma stacked_lookup (triples : list (cell * cell * cell)) (k : nat)
    (t : cell * cell * cell) :
  triples !! k = Some t ->
  stacked triples !! (3 * k) = Some t.1.1
  /\ stacked triples !! (3 * k + 1) = Some t.1.2
  /\ stacked triples !! (3 * k + 2) = Some t.2.
Proof.
  revert k. induction triples as [|t' ts IH]; intros k Hk; [discriminate|].
  change (stacked (t' :: ts)) with (t'.1.1 :: t'.1.2 :: t'.2 :: stacked ts).
  destruct k as [|k].
  - injection Hk as ->. now repeat split.
  - replace (3 * S k) with (S (S (S (3 * k)))) by lia.
    cbn [Nat.add]. exact (IH k Hk).
Qed.

Lemma stacked_map {A} (f : A -> cell * cell * cell) (l : list A) :
  stacked (map f l) = flat_map (fun a => [(f a).1.1; (f a).1.2; (f a).2]) l.
Proof.
  induction l as [|a l IH]; [reflexivity|].
  change (stacked (map f (a :: l)))
    with ((f a).1.1 :: (f a).1.2 :: (f a).2 :: stacked (map f l)).
  rewrite IH. reflexivity.
Qed.

Lemma individual_lines_stacked (c : list (Q * Q)) :
  _individual_lines_from_one_dimensional_coords c
  = Ok (stacked (map (fun p => (Num p.1, Num p.2, NaN)) c)).
Proof.
  unfold _individual_lines_from_one_dimensional_coords.
  rewrite empty_stacked.
  rewrite setitem_slice_stacked
    by (rewrite ?length_map, ?repeat_length; lia).
  cbn [mbind result_bind].
  rewrite setitem_slice_stacked
    by (rewrite ?length_zip_with, ?length_map, ?repeat_length; lia).
  cbn [mbind result_bind].
  rewrite setitem_slice_scalar_stacked by lia.
  f_equal. f_equal.
  induction c as [|p c IH]; [reflexivity|].
  cbn [length repeat map zip_with]. rewrite IH. reflexivity.
Qed.

(** X13.  [_individual_lines_from_one_dimensional_coords] never fails
    and leaves no slot of its [np.empty] array unwritten: for the lines
    [(s_0, e_0), (s_1, e_1), ...] it returns [s_0, e_0, nan, s_1, e_1,
    nan, ...], three slots a line, the line [k] starting at the slot
    [3 k]. *)
Theorem individual_lines_layout (one_dimensional_coords : list (Q * Q)) :
  exists x,
    _individual_lines_from_one_dimensional_coords one_dimensional_coords
    = Ok x
    /\ x = flat_map (fun p => [Num p.1; Num p.2; NaN])
             one_dimensional_coords
    /\ length x = length one_dimensional_coords * 3
    /\ Forall (fun v => v <> Uninit) x
    /\ forall k p,
         one_dimensional_coords !! k = Some p ->
         x !! (3 * k) = Some (Num p.1)
         /\ x !! (3 * k + 1) = Some (Num p.2)
         /\ x !! (3 * k + 2) = Some NaN.
Proof.
  eexists. split; [apply individual_lines_stacked|].
  split; [apply stacked_map|].
  split; [now rewrite length_stacked, length_map|].
  split.
  - rewrite stacked_map.
    induction one_dimensional_coords as [|p c IH]; [constructor|].
    cbn [flat_map app]. repeat (constructor; [discriminate|]). exact IH.
  - intros k p Hk.
    apply (stacked_lookup (map (fun p => (Num p.1, Num p.2, NaN))
                             one_dimensional_coords) k
             (Num p.1, Num p.2, NaN)).
    rewrite list_lookup_fmap, Hk. reflexivity.
Qed.

Lemma line_color_values_stacked (values : list Q) :
  line_color_values values
  = stacked (map (fun v => (Num v, Num v, NaN)) values).
Proof.
  unfold line_color_values.
  assert (H3 : repeat3 (map Num values)
               = stacked (map (fun v => (Num v, Num v, Num v)) values)).
  { rewrite stacked_map. unfold repeat3.
    induction values as [|v vs IH]; [reflexivity|].
    cbn [map flat_map]. rewrite IH. reflexivity. }
  rewrite H3, setitem_slice_scalar_stacked by lia.
  rewrite map_map. reflexivity.
Qed.

(** X14.  [line_color_values] gives each line one solid colour: for the
    values [v_0, v_1, ...] it returns [v_0, v_0, nan, v_1, v_1, nan, ...],
    so that both ends of the line [k] carry the value [v_k] and the gap
    after it carries NaN. *)
Theorem line_color_values_layout (values : list Q) :
  line_color_values values
  = flat_map (fun v => [Num v; Num v; NaN]) values
  /\ length (line_color_values values) = length values * 3
  /\ forall k v,
       values !! k = Some v ->
       line_color_values values !! (3 * k) = Some (Num v)
       /\ line_color_values values !! (3 * k + 1) = Some (Num v)
       /\ line_color_values values !! (3 * k + 2) = Some NaN.
Proof.
  rewrite line_color_values_stacked.
  split; [apply stacked_map|].
  split; [now rewrite length_stacked, length_map|].
  intros k v Hk.
  apply (stacked_lookup (map (fun v => (Num v, Num v, NaN)) values) k
           (Num v, Num v, NaN)).
  rewrite list_lookup_fmap, Hk. reflexivity.
Qed.

(** X15.  The colours of [line_color_values] line up with the
    coordinates of the lines they colour: for as many values as lines,
    the colour array is as long as the coordinate array and has its NaN
    gaps at the same slots. *)
Theorem line_colors_align_with_lines (values : list Q)
    (one_dimensional_coords : list (Q * Q)) :
  length values = length one_dimensional_coords ->
  exists x,
    _individual_lines_from_one_dimensional_coords one_dimensional_coords
    = Ok x
    /\ length (line_color_values values) = length x
    /\ map is_nan (line_color_values values) = map is_nan x.
Proof.
  intros Hlen. eexists. split; [apply individual_lines_stacked|].
  rewrite line_color_values_stacked.
  split; [now rewrite !length_stacked, !length_map, Hlen|].
  rewrite !stacked_map. cbn [fst snd]. revert values Hlen.
  induction one_dimensional_coords as [|p c IH]; intros [|v vs] Hlen;
    try discriminate Hlen; [reflexivity|].
  cbn [flat_map app map is_nan]. rewrite (IH vs); [reflexivity|].
  now injection Hlen.
Qed.

Lemma line_colors_align_with_lines_witness :
  length [5; 6]%Q = length [(1, 2); (3, 4)]%Q
  /\ exists x,
       _individual_lines_from_one_dimensional_coords [(1, 2); (3, 4)]%Q
       = Ok x
       /\ length (line_color_values [5; 6]%Q) = length x
       /\ map is_nan (line_color_values [5; 6]%Q) = map is_nan x.
Proof.
  assert (H : length [5; 6]%Q = length [(1, 2); (3, 4)]%Q) by reflexivity.
  exact (conj H (line_colors_align_with_lines [5; 6]%Q
                   [(1, 2); (3, 4)]%Q H)).
Defined.

(** ** Triangles over stacked vertices *)

Lemma arange_stride3 (n : nat) :
  arange (n * 3) 3 = map (fun t => t * 3) (seq 0 n).
Proof.
  unfold arange. replace (n * 3 + 3 - 1) with (n * 3 + 2) by lia.
  rewrite Nat.div_add_l by lia. cbn [Nat.div Nat.divmod fst].
  now rewrite Nat.add_0_r.
Qed.

Lemma stride_perm (n : nat) :
  Permutation
    (map (fun t => t * 3 + 0) (seq 0 n)
     ++ map (fun t => t * 3 + 1) (seq 0 n)
     ++ map (fun t => t * 3 + 2) (seq 0 n))
    (seq 0 (n * 3)).
Proof.
  induction n as [|n IH]; [reflexivity|].
  replace (S n * 3) with (n * 3 + 3) by lia.
  rewrite seq_app, <- IH, !seq_S, !map_app. cbn [map Nat.add seq].
  rewrite <- !Permutation_cons_append. cbn [app].
  rewrite (Permutation_app_comm _ [_; _; _]). cbn [app].
  rewrite <- !Permutation_middle.
  apply (Permutation_app_tail _
           (l := [n * 3 + 0; n * 3 + 1; n * 3 + 2])
           (l' := [n * 3 + 2; n * 3 + 1; n * 3 + 0])).
  exact (Permutation_rev [n * 3 + 0; n * 3 + 1; n * 3 + 2]).
Qed.

(** X16.  The triangles of the single-trace mesh index the stacked
    vertices face by face: for [n] intensities the triangle [t] is
    [(3 t, 3 t + 1, 3 t + 2)], and the three index arrays together hold
    every vertex index below [3 n] exactly once. *)
Theorem triangles_cover_stacked_vertices (intensities : list Q) :
  exists i j k,
    triangles intensities = Ok (i, j, k)
    /\ i = map (fun t => t * 3 + 0) (seq 0 (length intensities))
    /\ j = map (fun t => t * 3 + 1) (seq 0 (length intensities))
    /\ k = map (fun t => t * 3 + 2) (seq 0 (length intensities))
    /\ Permutation (i ++ j ++ k) (seq 0 (length intensities * 3)).
Proof.
  eexists _, _, _. split; [|split; [|split; [|split]]];
    [|reflexivity..|apply stride_perm].
  unfold triangles. rewrite arange_stride3.
  cbn [arange Nat.add Nat.sub Nat.div Nat.divmod fst seq map tile repeat
       add_column zip_with Nat.mul].
  rewrite !map_map. reflexivity.
Qed.

(** ** Relation faces grouped by degree *)

Section RelationFacts.
Variable relation : Type.
Variable relatum : Type.
Variable faces : relation -> list (list relatum).
Variable getattr : relation -> string -> Q.

Local Abbreviation entry := (Q * face relatum)%type.
Local Abbreviation by_value :=
  (fun a b : Q * face relatum => (a.1 <= b.1)%Q).

(** The entries in the order in which the two loops append them. *)
Lemma group_by_degree_entries (relations : list relation)
    (value_attr : string) (grouped : gmap nat (list entry)) :
  foldl (fun grouped relation =>
           foldl (fun grouped face =>
                    append_face relatum grouped
                      (getattr relation value_attr, face))
                 grouped (faces relation))
        grouped relations
  = foldl (append_face relatum) grouped
      (flat_map (fun r => map (fun f => (getattr r value_attr, f)) (faces r))
         relations).
Proof.
  revert grouped. induction relations as [|r rs IH]; intros grouped;
    [reflexivity|].
  cbn [foldl flat_map]. rewrite foldl_app, IH. f_equal.
  generalize (faces r). intros fs. revert grouped.
  induction fs as [|f fs IHf]; intros grouped; [reflexivity|].
  cbn [foldl map]. apply IHf.
Qed.

Lemma group_foldl (entries : list entry) (grouped : gmap nat (list entry))
    (degree : nat) :
  group relatum (foldl (append_face relatum) grouped entries) degree
  = group relatum grouped degree
    ++ List.filter (fun e => length e.2 =? degree) entries.
Proof.
  revert grouped. induction entries as [|e es IH]; intros grouped.
  - cbn [foldl List.filter]. now rewrite app_nil_r.
  - cbn [foldl List.filter]. rewrite IH. unfold group, append_face.
    match goal with
    | |- context [if ?b then _ else _] => destruct b eqn:Hdeg
    end.
    + apply Nat.eqb_eq in Hdeg. rewrite <- Hdeg, lookup_insert_eq.
      cbn [default id]. unfold id. now rewrite <- app_assoc.
    + apply Nat.eqb_neq in Hdeg.
      rewrite lookup_insert_ne by exact Hdeg. reflexivity.
Qed.

Lemma insert_by_value_perm (e : entry) (l : list entry) :
  Permutation (insert_by_value relatum e l) (e :: l).
Proof.
  induction l as [|e' l IH]; [reflexivity|].
  cbn [insert_by_value]. destruct (Qle_bool e.1 e'.1); [reflexivity|].
  rewrite IH. apply perm_swap.
Qed.

Lemma sorted_by_value_perm (l : list entry) :
  Permutation (sorted_by_value relatum l) l.
Proof.
  induction l as [|e l IH]; [reflexivity|].
  cbn [sorted_by_value foldr]. fold (sorted_by_value relatum l).
  now rewrite insert_by_value_perm, IH.
Qed.

Lemma insert_by_value_sorted (e : entry) (l : list entry) :
  Sorted by_value l -> Sorted by_value (insert_by_value relatum e l).
Proof.
  induction l as [|e' l IH]; intros Hs.
  - repeat constructor.
  - cbn [insert_by_value]. destruct (Qle_bool e.1 e'.1) eqn:Hle.
    + constructor; [exact Hs|]. constructor. now apply Qle_bool_iff.
    + assert (Hlt : (e'.1 <= e.1)%Q).
      { apply Qlt_le_weak, Qnot_le_lt. intros H.
        apply Qle_bool_iff in H. congruence. }
      inversion Hs as [|? ? Hs' Hhd]; subst.
      constructor; [exact (IH Hs')|].
      destruct l as [|e'' l]; cbn [insert_by_value].
      * now constructor.
      * destruct (Qle_bool e.1 e''.1); constructor; [exact Hlt|].
        now inversion Hhd.
Qed.

Lemma sorted_by_value_sorted (l : list entry) :
  Sorted by_value (sorted_by_value relatum l).
Proof.
  induction l as [|e l IH]; [constructor|].
  cbn [sorted_by_value foldr]. now apply insert_by_value_sorted.
Qed.

Lemma grouped_relations_group (relations : list relation)
    (value_attr : string) (degree : nat) :
  group relatum
    (grouped_relations relation relatum faces getattr relations value_attr)
    degree
  = sorted_by_value relatum
      (List.filter (fun e => length e.2 =? degree)
         (flat_map
            (fun r => map (fun f => (getattr r value_attr, f)) (faces r))
            relations)).
Proof.
  unfold grouped_relations, group_by_degree.
  rewrite group_by_degree_entries.
  pose proof (group_foldl
                (flat_map
                   (fun r => map (fun f => (getattr r value_attr, f))
                               (faces r))
                   relations) ∅ degree) as H.
  unfold group in *. rewrite lookup_fmap.
  rewrite lookup_empty in H. cbn [default app] in H.
  destruct (foldl _ _ _ !! degree) as [l|]; simpl in *;
    rewrite <- H; reflexivity.
Qed.
End RelationFacts.

(** X17.  The groups that [plot_phi_structure] plots: the group of a
    degree holds the pairs [(value, face)] of exactly the faces with that
    many relata, over all relations, each once, in ascending order of the
    value.  A degree without faces has the empty group. *)
Theorem grouped_relations_by_degree (relation relatum : Type)
    (faces : relation -> list (list relatum))
    (getattr : relation -> string -> Q)
    (relations : list relation) (value_attr : string) (degree : nat) :
  let entries :=
    flat_map (fun r => map (fun f => (getattr r value_attr, f)) (faces r))
      relations in
  let of_degree := List.filter (fun e => length e.2 =? degree) entries in
  let g :=
    group relatum
      (grouped_relations relation relatum faces getattr relations
         value_attr)
      degree in
  g = sorted_by_value relatum of_degree
  /\ Permutation g of_degree
  /\ Sorted (fun a b => (a.1 <= b.1)%Q) g
  /\ Forall (fun e => length e.2 = degree /\ In e entries) g
  /\ (of_degree = [] -> g = []).
Proof.
  intros entries of_degree g.
  assert (Hg : g = sorted_by_value relatum of_degree)
    by apply grouped_relations_group.
  split; [exact Hg|].
  assert (Hperm : Permutation g of_degree)
    by (rewrite Hg; apply sorted_by_value_perm).
  split; [exact Hperm|].
  split; [rewrite Hg; apply sorted_by_value_sorted|].
  split.
  - apply List.Forall_forall. intros e He.
    apply (Permutation_in _ Hperm) in He.
    apply filter_In in He as [Hin Hdeg].
    split; [now apply Nat.eqb_eq|exact Hin].
  - intros Hnil. rewrite Hg, Hnil. reflexivity.
Qed.

(** ** The analysis of a reducible subsystem *)

(** X18.  With a positive tolerance, the analysis that [_null_sia] builds
    for a subsystem (with big-phi zero) is falsy, is an analysis of the
    subsystem's network and takes the subsystem as its cut subsystem; and
    two such analyses over equal networks are ordered by their subsystems
    alone: by size, and for one size by the node-index tuples. *)
Theorem null_sia_falsy_and_ordered (EPSILON : Q)
    (s1 s2 : Subsystem.Subsystem) :
  (0 < EPSILON)%Q ->
  let a := BigPhi._null_sia s1 0 in
  let b := BigPhi._null_sia s2 0 in
  BigPhi.__bool__ EPSILON a = false
  /\ BigPhi.network a = Subsystem.network s1
  /\ BigPhi.cut_subsystem a = BigPhi.subsystem a
  /\ (Network.__eq__ (Subsystem.network s1)
        (Network.ONetwork (Subsystem.network s2)) = true ->
      Cmp.__lt__ a b
      = Ok (if Subsystem.__len__ s1 =? Subsystem.__len__ s2
            then Cmp.tuple_lt
                   (map Z.of_nat (Subsystem.node_indices s1))
                   (map Z.of_nat (Subsystem.node_indices s2))
            else Subsystem.__len__ s1 <? Subsystem.__len__ s2)).
Proof.
  intros Hpos a b.
  assert (Htie : Utils.eq EPSILON 0 0 = true) by (apply eq_iff; lra).
  split; [unfold BigPhi.__bool__; cbn [BigPhi.phi a BigPhi._null_sia];
          now rewrite Htie|].
  split; [reflexivity|]. split; [reflexivity|].
  intros Hnet. rewrite lt_comparable by exact Hnet. reflexivity.
Qed.

Lemma null_sia_falsy_and_ordered_witness :
  (0 < Sample.epsilon)%Q
  /\ BigPhi.__bool__ Sample.epsilon (Sample.sia 0 [0; 1]) = false.
Proof.
  assert (H : (0 < Sample.epsilon)%Q) by reflexivity.
  exact (conj H
           (proj1 (null_sia_falsy_and_ordered Sample.epsilon
                     {| Subsystem.node_indices := [0; 1];
                        Subsystem.state := [0; 0];
                        Subsystem.network := Sample.net |}
                     {| Subsystem.node_indices := [0];
                        Subsystem.state := [0];
                        Subsystem.network := Sample.net |} H))).
Defined.

(** ** The order of the analyses *)

Section OrderFacts.
Import BigPhi.

Local Abbreviation size_of :=
  (fun a : SystemIrreducibilityAnalysis => Subsystem.__len__ (subsystem a)).

Lemma sia_lt_exact_asym (a b : SystemIrreducibilityAnalysis) :
  Spec.sia_lt_exact a b = true -> Spec.sia_lt_exact b a = false.
Proof.
  unfold Spec.sia_lt_exact. rewrite (Qeq_bool_comm (phi b)).
  destruct (Qeq_bool (phi a) (phi b)).
  - rewrite (Nat.eqb_sym (size_of b)).
    destruct (Nat.eqb_spec (size_of a) (size_of b)).
    + apply tuple_lt_asym.
    + intros H. apply Nat.ltb_lt in H. apply Nat.ltb_ge. lia.
  - rewrite Qlt_bool_iff, Qlt_bool_false_iff. apply Qlt_le_weak.
Qed.

Lemma sia_lt_exact_tied (a b : SystemIrreducibilityAnalysis) :
  Spec.sia_lt_exact a b = false -> Spec.sia_lt_exact b a = false ->
  (phi a == phi b)%Q
  /\ Subsystem.node_indices (subsystem a)
     = Subsystem.node_indices (subsystem b).
Proof.
  unfold Spec.sia_lt_exact. rewrite (Qeq_bool_comm (phi b)).
  destruct (Qeq_bool (phi a) (phi b)) eqn:He.
  - apply Qeq_bool_iff in He.
    rewrite (Nat.eqb_sym (size_of b)).
    destruct (Nat.eqb_spec (size_of a) (size_of b)).
    + intros H1 H2. split; [exact He|].
      pose proof (tuple_lt_total _ _ H1 H2) as Hm.
      revert Hm. apply (inj (fmap Z.of_nat)).
    + intros H1 H2. apply Nat.ltb_ge in H1, H2. lia.
  - rewrite !Qlt_bool_false_iff. intros H1 H2. split; [lra|].
    apply Qeq_bool_neq in He. exfalso. apply He. lra.
Qed.

Lemma Qeq_bool_spec (x y : Q) :
  BoolSpec (x == y)%Q (~ (x == y)%Q) (Qeq_bool x y).
Proof.
  destruct (Qeq_bool x y) eqn:E; constructor.
  - now apply Qeq_bool_iff.
  - now apply Qeq_bool_neq.
Qed.

Lemma sia_lt_exact_trans (a b c : SystemIrreducibilityAnalysis) :
  Spec.sia_lt_exact a b = true -> Spec.sia_lt_exact b c = true ->
  Spec.sia_lt_exact a c = true.
Proof.
  unfold Spec.sia_lt_exact.
  destruct (Qeq_bool_spec (phi a) (phi b)) as [Eab|Eab];
    destruct (Qeq_bool_spec (phi b) (phi c)) as [Ebc|Ebc];
    destruct (Qeq_bool_spec (phi a) (phi c)) as [Eac|Eac];
    rewrite ?Qlt_bool_iff.
  - destruct (Nat.eqb_spec (size_of a) (size_of b)) as [Hab|Hab];
      destruct (Nat.eqb_spec (size_of b) (size_of c)) as [Hbc|Hbc];
      destruct (Nat.eqb_spec (size_of a) (size_of c)) as [Hac|Hac];
      rewrite ?Nat.ltb_lt; try lia; apply tuple_lt_trans.
  - exfalso. apply Eac. lra.
  - exfalso. apply Ebc. lra.
  - intros _. lra.
  - exfalso. apply Eab. lra.
  - intros H _. lra.
  - intros H1 H2. lra.
  - lra.
Qed.
End OrderFacts.

(** X19.  On analyses of content-equal networks [<] is a strict order by
    the keys of [order_by], each taken as it is: [a < b] excludes [b < a],
    [a < b] and [b < c] give [a < c], and two analyses that are ordered
    neither way have equal values of [phi] and the same node indices. *)
Theorem sia_order_strict (a b c : BigPhi.SystemIrreducibilityAnalysis) :
  Spec.comparable a b = true ->
  Spec.comparable b c = true ->
  (Cmp.__lt__ a b = Ok true -> Cmp.__lt__ b a = Ok false)
  /\ (Cmp.__lt__ a b = Ok true -> Cmp.__lt__ b c = Ok true ->
      Cmp.__lt__ a c = Ok true)
  /\ (Cmp.__lt__ a b = Ok false -> Cmp.__lt__ b a = Ok false ->
      (BigPhi.phi a == BigPhi.phi b)%Q
      /\ Subsystem.node_indices (BigPhi.subsystem a)
         = Subsystem.node_indices (BigPhi.subsystem b)).
Proof.
  intros Hab Hbc.
  pose proof (comparable_trans _ _ _ Hab Hbc) as Hac.
  assert (Hba : Spec.comparable b a = true) by now rewrite comparable_sym.
  rewrite !lt_comparable by assumption.
  split; [|split].
  - intros [= H]. f_equal. now apply sia_lt_exact_asym.
  - intros [= H1] [= H2]. f_equal. now apply (sia_lt_exact_trans a b c).
  - intros [= H1] [= H2]. now apply sia_lt_exact_tied.
Qed.

Lemma sia_order_strict_witness :
  Spec.comparable Sample.sia_whole Sample.sia_part = true
  /\ Spec.comparable Sample.sia_part Sample.sia_irreducible = true
  /\ Cmp.__lt__ Sample.sia_whole Sample.sia_part = Ok true
  /\ Cmp.__lt__ Sample.sia_part Sample.sia_irreducible = Ok true
  /\ Cmp.__lt__ Sample.sia_whole Sample.sia_irreducible = Ok true.
Proof.
  assert (Hab : Spec.comparable Sample.sia_whole Sample.sia_part = true)
    by (vm_compute; reflexivity).
  assert (Hbc : Spec.comparable Sample.sia_part Sample.sia_irreducible
                = true) by (vm_compute; reflexivity).
  assert (H1 : Cmp.__lt__ Sample.sia_whole Sample.sia_part = Ok true)
    by (vm_compute; reflexivity).
  assert (H2 : Cmp.__lt__ Sample.sia_part Sample.sia_irreducible = Ok true)
    by (vm_compute; reflexivity).
  exact (conj Hab (conj Hbc (conj H1 (conj H2
           (proj1 (proj2 (sia_order_strict Sample.sia_whole Sample.sia_part
                            Sample.sia_irreducible Hab Hbc)) H1 H2))))).
Defined.
